(** * python-mime: the XDG shared-mime-info backend

    A shallow embedding of [mime/backends/base.py] and
    [mime/backends/linux.py] (Python 2), and the properties of the glob
    index, of the icon table and of the [MimeType] facade.

    Python values that raise are modelled by [result]; the two methods that
    mutate their object ([aliases], [comment]) live in a small state and
    exception monad over the instance dictionary. *)

From Stdlib Require Import ZArith Ascii String.
From stdpp Require Import gmap strings list fin_maps.

Local Open Scope Z_scope.
Local Open Scope nat_scope.

(** ** Exceptions *)

Inductive exn : Set :=
  | IndexError | ValueError | TypeError | AttributeError | NameError
  | KeyError | ExpatError | ReError.

Inductive result (A : Type) : Type :=
  | Ok (a : A)
  | Raise (e : exn).
Arguments Ok {A} a.
Arguments Raise {A} e.

Global Instance result_ret : MRet result := λ A a, Ok a.
Global Instance result_bind : MBind result := λ A B k r,
  match r with
  | Ok a => k a
  | Raise e => Raise e
  end.
Global Instance result_fmap : FMap result := λ A B f r,
  match r with
  | Ok a => Ok (f a)
  | Raise e => Raise e
  end.

(** ** The string methods the module calls *)

Module Str.

(** [s.startswith(c)] for a one-character [c]. *)
Definition startswith (c : ascii) (s : string) : bool :=
  match s with
  | String c' _ => Ascii.eqb c' c
  | EmptyString => false
  end.

(** [s.endswith(c)] for a one-character [c]. *)
Fixpoint endswith (c : ascii) (s : string) : bool :=
  match s with
  | EmptyString => false
  | String c' EmptyString => Ascii.eqb c' c
  | String _ s' => endswith c s'
  end.

(** [s[:-1]]. *)
Fixpoint drop_last (s : string) : string :=
  match s with
  | EmptyString => EmptyString
  | String _ EmptyString => EmptyString
  | String c s' => String c (drop_last s')
  end.

(** [c in s] for a one-character [c]. *)
Fixpoint contains (c : ascii) (s : string) : bool :=
  match s with
  | EmptyString => false
  | String c' s' => Ascii.eqb c' c || contains c s'
  end.

(** [s.partition(sep)] for a one-character separator: the text before the
    first separator, the separator (empty when there is none) and the
    text after it. *)
Fixpoint partition (sep : ascii) (s : string) : string * string * string :=
  match s with
  | EmptyString => (EmptyString, EmptyString, EmptyString)
  | String c s' =>
      if Ascii.eqb c sep then (EmptyString, String sep EmptyString, s')
      else let '(h, m, t) := partition sep s' in (String c h, m, t)
  end.

(** [s.split(sep)] for a one-character separator; never the empty list. *)
Fixpoint split (sep : ascii) (s : string) : list string :=
  match s with
  | EmptyString => [EmptyString]
  | String c s' =>
      if Ascii.eqb c sep then EmptyString :: split sep s'
      else match split sep s' with
           | h :: t => String c h :: t
           | [] => [String c EmptyString]
           end
  end.

(** [s.replace(a, b)] for one-character [a] and [b]. *)
Fixpoint replace (a b : ascii) (s : string) : string :=
  match s with
  | EmptyString => EmptyString
  | String c s' => String (if Ascii.eqb c a then b else c) (replace a b s')
  end.

(** The lines a text file yields when iterated: each keeps its line feed,
    the last one may lack it. *)
Fixpoint lines (s : string) : list string :=
  match s with
  | EmptyString => []
  | String c s' =>
      if Ascii.eqb c "010" then String c EmptyString :: lines s'
      else match lines s' with
           | h :: t => String c h :: t
           | [] => [String c EmptyString]
           end
  end.

Definition lower_char (c : ascii) : ascii :=
  let n := nat_of_ascii c in
  if (65 <=? n) && (n <=? 90) then ascii_of_nat (n + 32) else c.

(** [s.lower()] on a byte string: the letters A to Z only. *)
Fixpoint lower (s : string) : string :=
  match s with
  | EmptyString => EmptyString
  | String c s' => String (lower_char c) (lower s')
  end.

Fixpoint lstrip (s : string) : string :=
  match s with
  | String c s' => if Ascii.is_space c then lstrip s' else s
  | EmptyString => EmptyString
  end.

(** Drops the trailing white space: a character goes when it is white
    space and nothing but white space follows it. *)
Fixpoint rstrip (s : string) : string :=
  match s with
  | EmptyString => EmptyString
  | String c s' =>
      match rstrip s' with
      | EmptyString => if Ascii.is_space c then EmptyString
                       else String c EmptyString
      | r => String c r
      end
  end.

(** [s.strip()]. *)
Definition strip (s : string) : string := rstrip (lstrip s).

Fixpoint digits (acc : Z) (s : string) : option Z :=
  match s with
  | EmptyString => Some acc
  | String c s' =>
      match Ascii.is_nat c with
      | Some d => digits (10 * acc + Z.of_nat d)%Z s'
      | None => None
      end
  end.

Definition unsigned (s : string) : option Z :=
  match s with
  | EmptyString => None
  | _ => digits 0%Z s
  end.

(** [int(s)] in base ten, as Python 2 reads a byte string: white space
    around, an optional sign, white space again (the number is read by
    [strtol], which skips it), at least one digit; [None] stands for the
    [ValueError] of any other text. Python's integers are unbounded, hence
    [Z]. *)
Definition int (s : string) : option Z :=
  match strip s with
  | String "-" d => Z.opp <$> unsigned (lstrip d)
  | String "+" d => unsigned (lstrip d)
  | d => unsigned d
  end.

(** Truth value of a string: the empty string is false. *)
Definition truthy (s : string) : bool :=
  match s with
  | EmptyString => false
  | _ => true
  end.

(** [s.count(c)] for a one-character [c]. *)
Fixpoint count (c : ascii) (s : string) : nat :=
  match s with
  | EmptyString => 0
  | String c' s' => (if Ascii.eqb c' c then 1 else 0) + count c s'
  end.

End Str.

(** ** Unicode text

    The text and the attribute values that [minidom] returns are unicode
    strings. They are held here in their UTF-8 encoding, on which equality
    and concatenation are those of the unicode strings. *)

Module Unicode.

(** The encodings of the characters that [unicode.isspace()] accepts in
    Python 2: U+0009 to U+000D, U+001C to U+0020, U+0085, U+00A0, U+1680,
    U+180E, U+2000 to U+200A, U+2028, U+2029, U+202F, U+205F and U+3000. *)
Definition blank1 (a : nat) : bool :=
  ((9 <=? a) && (a <=? 13)) || ((28 <=? a) && (a <=? 32)).

Definition blank2 (a b : nat) : bool :=
  (a =? 194) && ((b =? 133) || (b =? 160)).

Definition blank3 (a b c : nat) : bool :=
  ((a =? 225) && (b =? 154) && (c =? 128))
  || ((a =? 225) && (b =? 160) && (c =? 142))
  || ((a =? 226) && (b =? 128)
      && (((128 <=? c) && (c <=? 138)) || (c =? 168) || (c =? 169)
          || (c =? 175)))
  || ((a =? 226) && (b =? 129) && (c =? 159))
  || ((a =? 227) && (b =? 128) && (c =? 128)).

(** Drops the blanks in front of a list of bytes; [rev] tells that the
    list is read from its end, the bytes of a character in reverse. *)
Fixpoint drop_blanks (rev : bool) (s : list nat) : list nat :=
  match s with
  | a :: s1 =>
      if blank1 a then drop_blanks rev s1
      else
        match s1 with
        | b :: s2 =>
            if (if rev then blank2 b a else blank2 a b) then drop_blanks rev s2
            else
              match s2 with
              | c :: s3 =>
                  if (if rev then blank3 c b a else blank3 a b c)
                  then drop_blanks rev s3
                  else s
              | [] => s
              end
        | [] => s
        end
  | [] => []
  end.

(** [u.strip()] for a unicode string [u]. *)
Definition strip (u : string) : string :=
  let bytes := nat_of_ascii <$> list_ascii_of_string u in
  let kept := reverse (drop_blanks true (reverse (drop_blanks false bytes))) in
  string_of_list_ascii (ascii_of_nat <$> kept).

End Unicode.

(** ** [fnmatch.fnmatch] on a POSIX host

    [fnmatch(name, pat)] normalises the case of both arguments (the
    identity under POSIX), translates the pattern to a regular expression,
    compiles it and matches it against the whole name. The compiled
    pattern is kept as a list of tokens: [*] any run of characters, [?] one
    character, a bracket expression one character of a class, any other
    character itself. [translate] copies the text of a bracket expression
    into the regular expression as it is, so [re.compile] refuses a class
    with a reversed range: [fnmatch] then raises [re.error], here
    [ReError], whatever the name. *)

Module Fnmatch.

Inductive tok : Set :=
  | TStar
  | TAny
  | TLit (c : ascii)
  | TSet (negate : bool) (items : list (ascii * ascii)).

(** The first "]" of [s]: the text before it and the length of that text. *)
Fixpoint upto_close (s : list ascii) : option (list ascii * nat) :=
  match s with
  | [] => None
  | c :: s' =>
      if Ascii.eqb c "]" then Some ([], 0)
      else match upto_close s' with
           | Some (stuff, n) => Some (c :: stuff, S n)
           | None => None
           end
  end.

(** What follows a "[": the scan skips a leading "!" and then a leading
    "]" before it looks for the closing "]". Returns the text between the
    brackets and the number of characters up to and including the
    closing bracket; [None] when the bracket is never closed. *)
Definition bracket (rest : list ascii) : option (list ascii * nat) :=
  let '(p1, r1) := match rest with
                   | c :: r => if Ascii.eqb c "!" then ([c], r) else ([], rest)
                   | [] => ([], rest)
                   end in
  let '(p2, r2) := match r1 with
                   | c :: r => if Ascii.eqb c "]" then ([c], r) else ([], r1)
                   | [] => ([], r1)
                   end in
  match upto_close r2 with
  | Some (stuff, n) =>
      Some (p1 ++ p2 ++ stuff, length p1 + length p2 + n + 1)
  | None => None
  end.

(** The members of a class, as the regular expression engine reads them:
    [a-b] is a range unless the "-" is the last character, and a range
    whose end is below its start is an error ("bad character range"). *)
Fixpoint items (s : list ascii) : result (list (ascii * ascii)) :=
  match s with
  | [] => Ok []
  | c1 :: s1 =>
      match s1 with
      | dash :: c2 :: s2 =>
          if Ascii.eqb dash "-" then
            if nat_of_ascii c2 <? nat_of_ascii c1 then Raise ReError
            else rest ← items s2; Ok ((c1, c2) :: rest)
          else rest ← items s1; Ok ((c1, c1) :: rest)
      | _ => rest ← items s1; Ok ((c1, c1) :: rest)
      end
  end.

(** A leading "!" negates the class; a leading "^" is an ordinary
    member, and so is every backslash. *)
Definition class (stuff : list ascii) : result tok :=
  match stuff with
  | c :: s => if Ascii.eqb c "!" then its ← items s; Ok (TSet true its)
              else its ← items stuff; Ok (TSet false its)
  | [] => Ok (TSet false [])
  end.

(** [re.compile(translate(pat))]: [skip] counts the characters of a
    bracket expression that the previous step has consumed already. *)
Fixpoint compile_from (skip : nat) (pat : list ascii) : result (list tok) :=
  match pat with
  | [] => Ok []
  | c :: rest =>
      match skip with
      | S k => compile_from k rest
      | 0 =>
          if Ascii.eqb c "*" then ts ← compile_from 0 rest; Ok (TStar :: ts)
          else if Ascii.eqb c "?" then ts ← compile_from 0 rest; Ok (TAny :: ts)
          else if Ascii.eqb c "[" then
            match bracket rest with
            | None => ts ← compile_from 0 rest; Ok (TLit c :: ts)
            | Some (stuff, n) =>
                t ← class stuff;
                ts ← compile_from n rest;
                Ok (t :: ts)
            end
          else ts ← compile_from 0 rest; Ok (TLit c :: ts)
      end
  end.

Definition compile (pat : string) : result (list tok) :=
  compile_from 0 (list_ascii_of_string pat).

Definition in_range (c : ascii) (r : ascii * ascii) : bool :=
  (nat_of_ascii r.1 <=? nat_of_ascii c) && (nat_of_ascii c <=? nat_of_ascii r.2).

Definition in_class (negate : bool) (its : list (ascii * ascii)) (c : ascii) : bool :=
  xorb negate (existsb (in_range c) its).

(** The whole of [s] matches the tokens. *)
Fixpoint matches (ts : list tok) (s : list ascii) {struct ts} : bool :=
  match ts with
  | [] => match s with [] => true | _ => false end
  | TStar :: ts' =>
      (fix star (s : list ascii) : bool :=
         matches ts' s ||
         match s with
         | [] => false
         | _ :: s' => star s'
         end) s
  | TAny :: ts' =>
      match s with
      | _ :: s' => matches ts' s'
      | [] => false
      end
  | TLit c :: ts' =>
      match s with
      | c' :: s' => Ascii.eqb c' c && matches ts' s'
      | [] => false
      end
  | TSet negate its :: ts' =>
      match s with
      | c' :: s' => in_class negate its c' && matches ts' s'
      | [] => false
      end
  end.

Definition fnmatch (name pat : string) : result bool :=
  ts ← compile pat;
  Ok (matches ts (list_ascii_of_string name)).

End Fnmatch.

(** ** The glob index: class [GlobsFile] *)

Module GlobsFile.

(** An entry of [self.__matches]: the tuple [(weight, mime, glob, flags)]. *)
Record rule : Type := Rule {
  weight : Z;
  mime : string;
  glob : string;
  flags : list string
}.

(** The two private attributes [__matches] and [__literals]. *)
Record t : Type := Make {
  matches : list rule;
  literals : gmap string nat
}.

(** [__init__(self)]. *)
Definition __init__ : t := {| matches := []; literals := ∅ |}.

(** ["*" not in glob and "?" not in glob and "[" not in glob]. *)
Definition is_literal (glob : string) : bool :=
  negb (Str.contains "*" glob) && negb (Str.contains "?" glob)
  && negb (Str.contains "[" glob).

(** The body of the loop of [parse], for one line of the file. *)
Definition parse_line (self : t) (line : string) : result t :=
  if Str.startswith "#" line then Ok self
  else
    let line := if Str.endswith "010" line then Str.drop_last line else line in
    let '(weight, _, line) := Str.partition ":" line in
    let '(mime, _, line) := Str.partition ":" line in
    let '(glob, _, line) := Str.partition ":" line in
    let '(flags, _, line) := Str.partition ":" line in
    let flags := if Str.truthy flags then Str.split "," flags else [] in
    match Str.int weight with
    | None => Raise ValueError
    | Some w =>
        let matches' := matches self ++ [Rule w mime glob flags] in
        Ok {| matches := matches';
              literals := if is_literal glob
                          then <[glob := length matches']> (literals self)
                          else literals self |}
    end.

(** The loop of [parse] over the lines of a file: an exception leaves the
    object as the lines before it have made it. *)
Fixpoint parse_lines (self : t) (lines : list string) : t * result unit :=
  match lines with
  | [] => (self, Ok tt)
  | line :: rest =>
      match parse_line self line with
      | Ok self' => parse_lines self' rest
      | Raise e => (self, Raise e)
      end
  end.

(** [parse(path)], on the content of the file at [path]. *)
Definition parse (self : t) (content : string) : t * result unit :=
  parse_lines self (Str.lines content).

(** [GLOBS = GlobsFile()] followed by [GLOBS.parse(f)] for every file. *)
Fixpoint load (self : t) (files : list string) : result t :=
  match files with
  | [] => Ok self
  | f :: rest =>
      match parse self f with
      | (self', Ok _) => load self' rest
      | (_, Raise e) => Raise e
      end
  end.

(** The loop of [match] that collects the tuples [(weight, mime, glob)]
    of the rules that match; an exception of [fnmatch] leaves the loop. *)
Fixpoint scan (name : string) (rules : list rule)
    : result (list (Z * string * string)) :=
  match rules with
  | [] => Ok []
  | r :: rest =>
      m ← Fnmatch.fnmatch name (glob r);
      if m : bool then
        found ← scan name rest;
        Ok ((weight r, mime r, glob r) :: found)
      else if negb (bool_decide ("cs" ∈ flags r)) then
        m' ← Fnmatch.fnmatch (Str.lower name) (glob r);
        if m' : bool then
          found ← scan name rest;
          Ok ((weight r, mime r, glob r) :: found)
        else scan name rest
      else scan name rest
  end.

(** The key of [max]: [(weight, len(glob))]. *)
Definition key (m : Z * string * string) : Z * nat :=
  let '(weight, mime, glob) := m in (weight, String.length glob).

(** Tuples compare lexicographically: [a > b]. *)
Definition key_gt (a b : Z * nat) : bool :=
  (b.1 <? a.1)%Z || ((a.1 =? b.1)%Z && (b.2 <? a.2)).

(** [max(first :: rest, key=key)]: a later item replaces the best one so
    far only when its key is strictly greater. *)
Definition max_by_key (first : Z * string * string)
    (rest : list (Z * string * string)) : Z * string * string :=
  fold_left (fun best x => if key_gt (key x) (key best) then x else best)
            rest first.

(** [match(name)]. *)
Definition match_ (self : t) (name : string) : result string :=
  match literals self !! name with
  | Some i =>
      match matches self !! i with
      | Some r => Ok (mime r)
      | None => Raise IndexError
      end
  | None =>
      found ← scan name (matches self);
      match found with
      | [] => Ok EmptyString
      | first :: rest =>
          let '(weight, mime, glob) := max_by_key first rest in Ok mime
      end
  end.

End GlobsFile.

(** ** The icon table: class [IconsFile] *)

Module IconsFile.

(** The body of the loop of [parse], for one line of the file; the table is
    the private attribute [__icons]. *)
Definition parse_line (icons : gmap string string) (line : string)
    : result (gmap string string) :=
  let line := if Str.endswith "010" line then Str.drop_last line else line in
  match Str.split ":" line with
  | [mime; icon] => Ok (<[mime := icon]> icons)
  | _ => Raise ValueError
  end.

Fixpoint parse_lines (icons : gmap string string) (lines : list string)
    : gmap string string * result unit :=
  match lines with
  | [] => (icons, Ok tt)
  | line :: rest =>
      match parse_line icons line with
      | Ok icons' => parse_lines icons' rest
      | Raise e => (icons, Raise e)
      end
  end.

(** [parse(path)], on the content of the file at [path]. *)
Definition parse (icons : gmap string string) (content : string)
    : gmap string string * result unit :=
  parse_lines icons (Str.lines content).

(** [get(name)]: [None] is Python's [None]. *)
Definition get (icons : gmap string string) (name : string) : option string :=
  icons !! name.

End IconsFile.

(** ** The alias table: class [AliasesFile] *)

Module AliasesFile.

(** The body of the loop of [parse], for one line of the file; the table is
    the private attribute [__aliases]. *)
Definition parse_line (aliases : gmap string string) (line : string)
    : result (gmap string string) :=
  let line := if Str.endswith "010" line then Str.drop_last line else line in
  match Str.split " " line with
  | [mime; alias] => Ok (<[mime := alias]> aliases)
  | _ => Raise ValueError
  end.

Fixpoint parse_lines (aliases : gmap string string) (lines : list string)
    : gmap string string * result unit :=
  match lines with
  | [] => (aliases, Ok tt)
  | line :: rest =>
      match parse_line aliases line with
      | Ok aliases' => parse_lines aliases' rest
      | Raise e => (aliases, Raise e)
      end
  end.

(** [parse(path)], on the content of the file at [path]. *)
Definition parse (aliases : gmap string string) (content : string)
    : gmap string string * result unit :=
  parse_lines aliases (Str.lines content).

(** [get(name)]: [None] is Python's [None]. *)
Definition get (aliases : gmap string string) (name : string) : option string :=
  aliases !! name.

End AliasesFile.

(** ** Python values and module name spaces *)

(** The values an attribute of a [MimeType] object can hold. *)
Inductive pyval : Type :=
  | VNone
  | VStr (s : string)
  | VList (l : list string)
  | VDict (d : gmap string string).

Global Instance pyval_eq_dec : EqDecision pyval.
Proof. solve_decision. Defined.

Module Py.

(** Truth value. *)
Definition truthy (v : pyval) : bool :=
  match v with
  | VNone => false
  | VStr s => Str.truthy s
  | VList l => match l with [] => false | _ => true end
  | VDict d => negb (bool_decide (d = ∅))
  end.

(** [k in v]. *)
Definition contains (k : string) (v : pyval) : result bool :=
  match v with
  | VNone => Raise TypeError
  | VStr s => Ok (match String.index 0 k s with Some _ => true | None => false end)
  | VList l => Ok (bool_decide (k ∈ l))
  | VDict d => Ok (bool_decide (is_Some (d !! k)))
  end.

(** [v[k]] for a string [k]. *)
Definition getitem (v : pyval) (k : string) : result pyval :=
  match v with
  | VDict d => match d !! k with Some x => Ok (VStr x) | None => Raise KeyError end
  | _ => Raise TypeError
  end.

(** [v[k] = x] for strings [k] and [x]: the value after the assignment. *)
Definition setitem (v : pyval) (k x : string) : result pyval :=
  match v with
  | VDict d => Ok (VDict (<[k := x]> d))
  | _ => Raise TypeError
  end.

(** [v.append(x)]: the value after the call. *)
Definition append (v : pyval) (x : string) : result pyval :=
  match v with
  | VList l => Ok (VList (l ++ [x]))
  | _ => Raise AttributeError
  end.

(** ["".join(parts)]: a part that is [None] is a [TypeError]. *)
Fixpoint join (parts : list (option string)) : result string :=
  match parts with
  | [] => Ok EmptyString
  | Some s :: rest => r ← join rest; Ok (s +:+ r)
  | None :: _ => Raise TypeError
  end.

(** [posixpath.join(a, b)]. *)
Definition path_join (a b : string) : string :=
  if Str.startswith "/" b then b
  else if negb (Str.truthy a) || Str.endswith "/" a then a +:+ b
  else a +:+ "/" +:+ b.

End Py.

(** ** What the module reads from the host: directories and XML documents *)

Module Host.

(** A [comment] element: its [xml:lang] attribute (empty when the
    attribute is missing) and the [nodeValue] of each of its children
    ([None] for a child that is an element), as unicode text. *)
Record comment_element : Type := {
  lang : string;
  childNodes : list (option string)
}.

(** What the module looks at in a parsed document: the [comment] elements
    of the freedesktop name space and the [type] attribute of each
    [alias] element, in document order. *)
Record document : Type := {
  comments : list comment_element;
  alias_types : list string
}.

Inductive file : Type :=
  | Xml (doc : document)
  | NotXml.

(** The directories of [XDG_DATA_DIRS], in the order the loop visits
    them, and the files that exist, by path. *)
Record t : Type := {
  XDG_DATA_DIRS : list string;
  files : gmap string file
}.

(** [minidom.parse(path)] for a path that exists. *)
Definition minidom_parse (h : t) (path : string) : result document :=
  match files h !! path with
  | Some (Xml doc) => Ok doc
  | _ => Raise ExpatError
  end.

End Host.

(** ** [base.py]: class [BaseMime] *)

Module BaseMime.

(** An instance is its dictionary of attributes. *)
Abbreviation obj := (gmap string pyval).

(** The data attributes of the class. *)
Definition class_attrs : gmap string pyval :=
  {[ "DEFAULT_TEXT" := VStr "text/plain";
     "DEFAULT_BINARY" := VStr "application/octet-stream" ]}.

(** [self.a]: the instance dictionary first, the class after it. *)
Definition getattr (self : obj) (a : string) : result pyval :=
  match self !! a with
  | Some v => Ok v
  | None =>
      match class_attrs !! a with
      | Some v => Ok v
      | None => Raise AttributeError
      end
  end.

(** What a bare name of a method body can resolve to. *)
Inductive gval : Type :=
  | GClass (n : string)
  | GBuiltin (n : string).

(** The names the statements of [base.py] bind at module level. *)
Definition module_globals : list string := ["BaseMime"].

(** The functions and constants of Python 2's [__builtin__]; its
    exception classes, which [base.py] never names, are left out. *)
Definition builtins : list string :=
  ["abs"; "all"; "any"; "apply"; "basestring"; "bin"; "bool"; "buffer";
   "bytearray"; "bytes"; "callable"; "chr"; "classmethod"; "cmp"; "coerce";
   "compile"; "complex"; "delattr"; "dict"; "dir"; "divmod"; "enumerate";
   "eval"; "execfile"; "file"; "filter"; "float"; "format"; "frozenset";
   "getattr"; "globals"; "hasattr"; "hash"; "help"; "hex"; "id"; "input";
   "int"; "intern"; "isinstance"; "issubclass"; "iter"; "len"; "list";
   "locals"; "long"; "map"; "max"; "memoryview"; "min"; "next"; "object";
   "oct"; "open"; "ord"; "pow"; "print"; "property"; "range"; "raw_input";
   "reduce"; "reload"; "repr"; "reversed"; "round"; "set"; "setattr";
   "slice"; "sorted"; "staticmethod"; "str"; "sum"; "super"; "tuple";
   "type"; "unichr"; "unicode"; "vars"; "xrange"; "zip"; "__import__";
   "True"; "False"; "None"; "NotImplemented"; "Ellipsis"; "__debug__"].

(** A bare name inside a method: the module's globals, then the
    builtins; the attributes of the enclosing class are not in scope. *)
Definition load_global (n : string) : result gval :=
  if bool_decide (n ∈ module_globals) then Ok (GClass n)
  else if bool_decide (n ∈ builtins) then Ok (GBuiltin n)
  else Raise NameError.

(** [__init__(self, mime)]. *)
Definition __init__ (mime : pyval) : obj :=
  <["_comment" := VNone]> (<["_BaseMime__name" := mime]> ∅).

(** [name(self)]. *)
Definition name (self : obj) : result pyval :=
  getattr self "_BaseMime__name".

(** The right-hand side of a comparison: an instance or a plain value. *)
Inductive operand : Type :=
  | Instance (o : obj)
  | Value (v : pyval).

(** [isinstance(other, cls)] for a class of the module: every instance
    here is an instance of [BaseMime]. A builtin in the place of the
    class is taken as the [TypeError] of a second argument that is no
    type. *)
Definition isinstance (other : operand) (cls : gval) : result bool :=
  match cls with
  | GClass _ =>
      Ok (match other with
          | Instance _ => true
          | Value _ => false
          end)
  | GBuiltin _ => Raise TypeError
  end.

(** [__eq__(self, other)]. *)
Definition __eq__ (self : obj) (other : operand) : result bool :=
  _ ← load_global "isinstance";
  cls ← load_global "BaseMimeType";
  b ← isinstance other cls;
  if b : bool then
    a ← name self;
    c ← match other with
        | Instance o => name o
        | Value _ => Raise AttributeError
        end;
    Ok (bool_decide (a = c))
  else
    a ← name self;
    Ok (match other with
        | Value v => bool_decide (a = v)
        | Instance _ => false
        end).

(** [v == g] for an attribute value [v] and a global [g]: among the
    classes, functions and constants a bare name can stand for, only
    [None] equals one of these values. *)
Definition eq_global (v : pyval) (g : gval) : bool :=
  match g with
  | GBuiltin "None" => bool_decide (v = VNone)
  | _ => false
  end.

(** [isDefault(self)]. *)
Definition isDefault (self : obj) : result bool :=
  name ← name self;
  binary ← load_global "DEFAULT_BINARY";
  if eq_global name binary then Ok true
  else
    text ← load_global "DEFAULT_TEXT";
    Ok (eq_global name text).

(** [s.replace("/", "-")] on the value [name()] returned. *)
Definition replace_slash (v : pyval) : result pyval :=
  match v with
  | VStr s => Ok (VStr (Str.replace "/" "-" s))
  | _ => Raise AttributeError
  end.

(** [icon(self)]; [genericIcon] is the method of the subclass. *)
Definition icon (genericIcon : obj → result pyval) (self : obj)
    : result pyval :=
  g ← genericIcon self;
  if Py.truthy g then Ok g
  else
    n ← name self;
    replace_slash n.

End BaseMime.

(** ** [linux.py]: [getMimeFiles] and class [MimeType] *)

Module MimeType.
Import BaseMime.

(** The loop of [getMimeFiles(name)] over the directories. *)
Fixpoint getMimeFiles_in (h : Host.t) (name : pyval) (dirs : list string)
    : result (list string) :=
  match dirs with
  | [] => Ok []
  | dir :: rest =>
      match name with
      | VStr n =>
          match Str.split "/" n with
          | [type; subtype] =>
              let path :=
                Py.path_join (Py.path_join (Py.path_join dir "mime") type)
                             (subtype +:+ ".xml") in
              paths ← getMimeFiles_in h name rest;
              Ok (if bool_decide (is_Some (Host.files h !! path))
                  then path :: paths else paths)
          | _ => Raise ValueError
          end
      | _ => Raise AttributeError
      end
  end.

Definition getMimeFiles (h : Host.t) (name : pyval) : result (list string) :=
  getMimeFiles_in h name (Host.XDG_DATA_DIRS h).

(** [fromName(cls, name)]: [None] is Python's [None]. *)
Definition fromName (globs : GlobsFile.t) (name : string)
    : result (option obj) :=
  mime ← GlobsFile.match_ globs name;
  if Str.truthy mime then Ok (Some (__init__ (VStr mime))) else Ok None.

(** [ICONS.get(key)]. *)
Definition icons_get (icons : gmap string string) (key : pyval)
    : result pyval :=
  match key with
  | VStr s => Ok (from_option VStr VNone (IconsFile.get icons s))
  | VNone => Ok VNone
  | _ => Raise TypeError
  end.

(** [genericIcon(self)]. *)
Definition genericIcon (icons : gmap string string) (self : obj)
    : result pyval :=
  n ← name self;
  icons_get icons n.

Definition icon (icons : gmap string string) (self : obj) : result pyval :=
  BaseMime.icon (genericIcon icons) self.

(** *** The methods that assign to their object

    A computation takes the instance and gives the instance it leaves
    behind with its value or its exception. *)

Definition M (A : Type) : Type := obj → obj * result A.

#[local] Instance M_ret : MRet M := λ A a self, (self, Ok a).
#[local] Instance M_bind : MBind M := λ A B k m self,
  match m self with
  | (self', Ok a) => k a self'
  | (self', Raise e) => (self', Raise e)
  end.

Definition lift {A} (r : result A) : M A := λ self, (self, r).
Definition call {A} (method : obj → result A) : M A :=
  λ self, (self, method self).
Definition load (a : string) : M pyval := call (λ self, getattr self a).
Definition store (a : string) (v : pyval) : M unit :=
  λ self, (<[a := v]> self, Ok tt).

(** The inner loop of [aliases] over the [alias] elements of a document. *)
Fixpoint aliases_nodes (types : list string) : M unit :=
  match types with
  | [] => mret tt
  | alias :: rest =>
      cur ← load "_aliases";
      present ← lift (Py.contains alias cur);
      _ ← (if present : bool then mret tt
           else
             cur ← load "_aliases";
             new ← lift (Py.append cur alias);
             store "_aliases" new);
      aliases_nodes rest
  end.

(** The outer loop of [aliases] over the files. *)
Fixpoint aliases_files (h : Host.t) (paths : list string) : M unit :=
  match paths with
  | [] => mret tt
  | path :: rest =>
      doc ← lift (Host.minidom_parse h path);
      _ ← aliases_nodes (Host.alias_types doc);
      aliases_files h rest
  end.

(** [aliases(self)]. *)
Definition aliases (h : Host.t) : M pyval :=
  cur ← load "_aliases";
  if negb (Py.truthy cur) then
    n ← call name;
    paths ← lift (getMimeFiles h n);
    match paths with
    | [] => mret VNone
    | _ =>
        _ ← aliases_files h paths;
        load "_aliases"
    end
  else load "_aliases".

(** The inner loop of [comment]: the first element in the language asked
    for is stored, and the loop breaks. *)
Fixpoint comment_nodes (lang : string) (nodes : list Host.comment_element)
    : M unit :=
  match nodes with
  | [] => mret tt
  | node :: rest =>
      let nslang := if Str.truthy (Host.lang node) then Host.lang node
                    else "en" in
      if bool_decide (nslang = lang) then
        text ← lift (Py.join (Host.childNodes node));
        cur ← load "_comment";
        new ← lift (Py.setitem cur lang (Unicode.strip text));
        store "_comment" new
      else comment_nodes lang rest
  end.

(** The outer loop of [comment] over the files. *)
Fixpoint comment_files (h : Host.t) (lang : string) (paths : list string)
    : M unit :=
  match paths with
  | [] => mret tt
  | path :: rest =>
      doc ← lift (Host.minidom_parse h path);
      _ ← comment_nodes lang (Host.comments doc);
      comment_files h lang rest
  end.

(** [comment(self, lang)]. *)
Definition comment (h : Host.t) (lang : string) : M pyval :=
  cur ← load "_comment";
  absent ← lift (negb <$> Py.contains lang cur);
  if absent : bool then
    n ← call name;
    paths ← lift (getMimeFiles h n);
    match paths with
    | [] => mret VNone
    | _ =>
        _ ← comment_files h lang paths;
        cur ← load "_comment";
        lift (Py.getitem cur lang)
    end
  else
    cur ← load "_comment";
    lift (Py.getitem cur lang).

(** The loop of [getFiles(name)] over the directories. *)
Fixpoint getFiles_in (h : Host.t) (name : string) (dirs : list string)
    : list string :=
  match dirs with
  | [] => []
  | dir :: rest =>
      let path := Py.path_join (Py.path_join dir "mime") name in
      if bool_decide (is_Some (Host.files h !! path))
      then path :: getFiles_in h name rest
      else getFiles_in h name rest
  end.

(** [getFiles(name)]. *)
Definition getFiles (h : Host.t) (name : string) : list string :=
  getFiles_in h name (Host.XDG_DATA_DIRS h).

(** [ALIASES.get(key)]. *)
Definition aliases_get (aliases : gmap string string) (key : pyval)
    : result pyval :=
  match key with
  | VStr s => Ok (from_option VStr VNone (AliasesFile.get aliases s))
  | VNone => Ok VNone
  | _ => Raise TypeError
  end.

(** [aliasOf(self)]. *)
Definition aliasOf (aliases : gmap string string) (self : obj)
    : result pyval :=
  n ← name self;
  aliases_get aliases n.

(** [parent(self)]: the body is [pass]. *)
Definition parent (self : obj) : result pyval := Ok VNone.

End MimeType.

(** ** Vocabulary of the statements *)

Module Spec.
Import GlobsFile.

(** The glob is one that [fnmatch] can compile. *)
Definition compiles (pat : string) : bool :=
  match Fnmatch.compile pat with
  | Ok _ => true
  | Raise _ => false
  end.

(** [fnmatch(name, pat)] returns true. *)
Definition glob_matches (name pat : string) : bool :=
  match Fnmatch.fnmatch name pat with
  | Ok b => b
  | Raise _ => false
  end.

(** The condition under which the loop of [match] keeps a rule. *)
Definition rule_matches (name : string) (r : rule) : bool :=
  glob_matches name (glob r)
  || (negb (bool_decide ("cs" ∈ flags r))
      && glob_matches (Str.lower name) (glob r)).

(** The tuple the loop keeps of a rule. *)
Definition entry (r : rule) : Z * string * string :=
  (weight r, mime r, glob r).

(** The tuples of the rules that match, in the order of the rules. *)
Fixpoint kept (name : string) (rules : list rule) : list (Z * string * string) :=
  match rules with
  | [] => []
  | r :: rest =>
      if rule_matches name r then entry r :: kept name rest
      else kept name rest
  end.

(** Every glob of the rules is one that [fnmatch] can compile. *)
Definition all_compile (rules : list rule) : bool :=
  forallb (λ r, compiles (glob r)) rules.

(** The order of the keys [(weight, len(glob))]. *)
Definition key_lt (a b : Z * nat) : Prop :=
  (a.1 < b.1)%Z ∨ (a.1 = b.1 ∧ a.2 < b.2).
Definition key_le (a b : Z * nat) : Prop :=
  (a.1 < b.1)%Z ∨ (a.1 = b.1 ∧ a.2 ≤ b.2).

(** The line of a glob file without its line feed, and its first field. *)
Definition chomp (line : string) : string :=
  if Str.endswith "010" line then Str.drop_last line else line.
Definition weight_field (line : string) : string :=
  (Str.partition ":" (chomp line)).1.1.

(** A line that is no comment and whose weight is no integer. *)
Definition bad_line (line : string) : bool :=
  negb (Str.startswith "#" line)
  && negb (bool_decide (is_Some (Str.int (weight_field line)))).

(** The indexes that parsing lines, of any files, can leave behind. *)
Inductive reached : GlobsFile.t → Prop :=
  | reached_init : reached GlobsFile.__init__
  | reached_line self line self' :
      reached self → parse_line self line = Ok self' → reached self'.

Definition nl : string := String "010" EmptyString.

(** Glob files of the examples. *)
Definition makefile_only : string :=
  "50:text/x-makefile:Makefile" +:+ nl.
Definition makefile_then_star : string :=
  "50:text/x-makefile:Makefile" +:+ nl +:+ "60:text/plain:*" +:+ nl.
Definition gz_then_tar_gz : string :=
  "50:application/gzip:*.gz" +:+ nl
  +:+ "50:application/x-compressed-tar:*.tar.gz" +:+ nl.
Definition upper_jpg : string := "50:image/jpeg:*.JPG" +:+ nl.
Definition lower_jpg : string := "50:image/jpeg:*.jpg" +:+ nl.
Definition weight_only : string := "50" +:+ nl.
Definition no_glob : string := "50:text/plain" +:+ nl.
Definition no_weight : string := ":text/plain:*.txt" +:+ nl.
Definition empty_type : string := "50::*.txt" +:+ nl.
Definition star_then_reversed : string :=
  "50:a/star:*" +:+ nl +:+ "50:a/rev:[z-a]" +:+ nl.

(** The index a glob file leaves behind. *)
Definition loaded (content : string) : GlobsFile.t :=
  (GlobsFile.parse GlobsFile.__init__ content).1.

(** An icon file that registers the empty name. *)
Definition empty_icon : string := "a/b:" +:+ nl.

(** A host with one document for "text/plain", and an instance to which
    the two attributes the methods expect were assigned by hand. *)
Definition plain_doc : Host.document :=
  {| Host.comments :=
       [ {| Host.lang := EmptyString;
            Host.childNodes := [Some " plain text document "] |};
         {| Host.lang := "de";
            Host.childNodes := [Some "Einfaches Textdokument"] |} ];
     Host.alias_types := ["text/x-plain"; "text/x-plain"; "text/ascii"] |}.
Definition plain_host : Host.t :=
  {| Host.XDG_DATA_DIRS := ["/usr/local/share"; "/usr/share"];
     Host.files := {[ "/usr/share/mime/text/plain.xml" := Host.Xml plain_doc ]} |}.
(** A host with three documents for "text/plain": the first two have a
    German comment, the second one between a no-break space and a space;
    the third has none. *)
Definition old_doc : Host.document :=
  {| Host.comments :=
       [ {| Host.lang := "de"; Host.childNodes := [Some "Alt"] |} ];
     Host.alias_types := [] |}.
Definition new_doc : Host.document :=
  {| Host.comments :=
       [ {| Host.lang := "en"; Host.childNodes := [None] |};
         {| Host.lang := "de";
            Host.childNodes :=
              [Some (String "194" (String "160" "Neu")); Some " "] |} ];
     Host.alias_types := [] |}.
Definition english_doc : Host.document :=
  {| Host.comments :=
       [ {| Host.lang := EmptyString; Host.childNodes := [Some "plain"] |} ];
     Host.alias_types := [] |}.
Definition three_hosts : Host.t :=
  {| Host.XDG_DATA_DIRS := ["/a"; "/b"; "/c"];
     Host.files := {[ "/a/mime/text/plain.xml" := Host.Xml old_doc;
                      "/b/mime/text/plain.xml" := Host.Xml new_doc;
                      "/c/mime/text/plain.xml" := Host.Xml english_doc ]} |}.
Definition prepared (mime : string) : BaseMime.obj :=
  <["_aliases" := VList []]>
    (<["_comment" := VDict ∅]> (BaseMime.__init__ (VStr mime))).

End Spec.

(** ** Vocabulary of the further properties *)

Module Table.

(** The shape the loops of [AliasesFile.parse] and [IconsFile.parse] share:
    a line is cut at the separator into a key and a value. *)
Definition line (sep : ascii) (table : gmap string string) (l : string)
    : result (gmap string string) :=
  match Str.split sep (Spec.chomp l) with
  | [k; v] => Ok (<[k := v]> table)
  | _ => Raise ValueError
  end.

Fixpoint lines (sep : ascii) (table : gmap string string) (ls : list string)
    : gmap string string * result unit :=
  match ls with
  | [] => (table, Ok tt)
  | l :: rest =>
      match line sep table l with
      | Ok table' => lines sep table' rest
      | Raise e => (table, Raise e)
      end
  end.

(** The key of a line that has a key and a value. *)
Definition key (sep : ascii) (l : string) : option string :=
  match Str.split sep (Spec.chomp l) with
  | [k; _] => Some k
  | _ => None
  end.

End Table.

Module Globs.

(** A line of a glob file that is no comment. *)
Definition is_rule_line (l : string) : bool := negb (Str.startswith "#" l).

(** The field of a line at a position, counting from 0: what lies between
    two colons of the line, its line feed apart; a field the line does not
    have is the empty string. *)
Definition field (i : nat) (l : string) : string :=
  nth i (Str.split ":" (Spec.chomp l)) EmptyString.

(** The flags a field of flags holds. *)
Definition flags_of (f : string) : list string :=
  if Str.truthy f then Str.split "," f else [].

(** A character that is none of "*", "?" and "[". *)
Definition plain (a : ascii) : bool :=
  negb (Ascii.eqb a "*") && negb (Ascii.eqb a "?") && negb (Ascii.eqb a "[").

End Globs.

Module Aliases.

(** The list after the inner loop of [aliases] has seen the aliases
    [types]: each one is appended unless the list holds it already. *)
Definition add_all (l types : list string) : list string :=
  fold_left (λ acc a, if bool_decide (a ∈ acc) then acc else acc ++ [a])
            types l.

End Aliases.

Module Comments.

(** The language of a [comment] element: "en" when it has no attribute. *)
Definition nslang (c : Host.comment_element) : string :=
  if Str.truthy (Host.lang c) then Host.lang c else "en".

(** The first element of a document in a language. *)
Definition first_in (lang : string) (nodes : list Host.comment_element)
    : option Host.comment_element :=
  List.find (λ c, bool_decide (nslang c = lang)) nodes.

(** The text of an element whose children are all text. *)
Definition text (c : Host.comment_element) : string :=
  Unicode.strip (fold_right (λ p acc, default EmptyString p +:+ acc) EmptyString
                        (Host.childNodes c)).

(** The comment a document gives for a language. *)
Definition of_doc (lang : string) (doc : Host.document) : option string :=
  text <$> first_in lang (Host.comments doc).

(** The element a document gives for a language, if any, has only text
    nodes for children. *)
Definition readable (lang : string) (doc : Host.document) : Prop :=
  ∀ c, first_in lang (Host.comments doc) = Some c →
       Forall is_Some (Host.childNodes c).

End Comments.

(** * Properties *)

(** ** Evaluations *)

Example fnmatch_star : Fnmatch.fnmatch "x.tar.gz" "*.gz" = Ok true.
Proof. reflexivity. Qed.

Example fnmatch_class : Fnmatch.fnmatch "a1.c" "[a-c][!a-z].?" = Ok true.
Proof. reflexivity. Qed.

Example fnmatch_anchored : Fnmatch.fnmatch "x.gz.bak" "*.gz" = Ok false.
Proof. reflexivity. Qed.

Example fnmatch_open_bracket : Fnmatch.fnmatch "a[b" "a[b" = Ok true.
Proof. reflexivity. Qed.

Example fnmatch_reversed_range :
  Fnmatch.fnmatch "anything" "*.[z-a]" = Raise ReError.
Proof. reflexivity. Qed.

Example fnmatch_dash_last : Fnmatch.fnmatch "-" "[a-]" = Ok true.
Proof. reflexivity. Qed.

Example int_signed : Str.int " -50 " = Some (-50)%Z.
Proof. reflexivity. Qed.

Example int_empty : Str.int "" = None.
Proof. reflexivity. Qed.

Example int_blank_after_sign :
  Str.int "- 5" = Some (-5)%Z ∧ Str.int "5 0" = None ∧ Str.int "-" = None.
Proof. repeat split; reflexivity. Qed.

Example unicode_strip :
  Unicode.strip (String "194" (String "160" " Neu  ")) = "Neu"
  ∧ Unicode.strip (String "226" (String "128" (String "168" "a b")))= "a b"
  ∧ Unicode.strip (String "195" (String "160" "")) = String "195" (String "160" "").
Proof. repeat split; reflexivity. Qed.

Example end_to_end :
  let g := Spec.loaded ("50:text/plain:*.txt:" +:+ Spec.nl
                        +:+ "60:text/x-log:*.log:" +:+ Spec.nl) in
  GlobsFile.match_ g "server.log" = Ok "text/x-log"
  ∧ GlobsFile.match_ g "notes.txt" = Ok "text/plain"
  ∧ GlobsFile.match_ g "unknown.bin" = Ok "".
Proof. vm_compute. auto. Qed.

(** ** The literal index *)

Section Literals.
Import GlobsFile.

(** A line that parses appends exactly one rule. *)
Lemma parse_line_matches self line self' :
  Str.startswith "#" line = false →
  parse_line self line = Ok self' →
  ∃ r, matches self' = matches self ++ [r].
Proof.
  unfold parse_line. intros ->.
  repeat (destruct (Str.partition _ _) as [[? ?] ?]).
  destruct (Str.int _); [|discriminate].
  intros [= <-]. simpl. eauto.
Qed.

(** The index recorded for a literal glob is the length of the rule list
    after the append: one past the position of the rule. *)
Lemma parse_line_literal_index self line self' r :
  Str.startswith "#" line = false →
  parse_line self line = Ok self' →
  matches self' = matches self ++ [r] →
  is_literal (glob r) = true →
  literals self' !! glob r = Some (S (length (matches self)))
  ∧ matches self' !! S (length (matches self)) = None.
Proof.
  unfold parse_line. intros ->.
  repeat (destruct (Str.partition _ _) as [[? ?] ?]).
  destruct (Str.int _); [|discriminate].
  intros [= <-]. simpl. intros [= <-]%app_inv_head. simpl. intros ->.
  split.
  - rewrite lookup_insert_eq, length_app. simpl. f_equal. lia.
  - apply lookup_ge_None_2. rewrite length_app. simpl. lia.
Qed.

End Literals.

(** C1. A file name recorded in the literal index does not get the type of
    its literal rule: the index holds the position after the rule. With
    the literal rule for "Makefile" loaded last, [match] raises
    [IndexError]; with a rule loaded after it, [match] returns the type of
    that next rule. *)
Theorem literal_fast_path_off_by_one :
  GlobsFile.literals (Spec.loaded Spec.makefile_only) !! "Makefile" = Some 1
  ∧ GlobsFile.match_ (Spec.loaded Spec.makefile_only) "Makefile"
    = Raise IndexError
  ∧ GlobsFile.match_ (Spec.loaded Spec.makefile_then_star) "Makefile"
    = Ok "text/plain".
Proof. vm_compute. auto. Qed.

(** Whatever was loaded before, matching the name of a literal rule right
    after its line was parsed raises [IndexError]. *)
Lemma match_literal_loaded_last self line self' r :
  Str.startswith "#" line = false →
  GlobsFile.parse_line self line = Ok self' →
  GlobsFile.matches self' = GlobsFile.matches self ++ [r] →
  GlobsFile.is_literal (GlobsFile.glob r) = true →
  GlobsFile.match_ self' (GlobsFile.glob r) = Raise IndexError.
Proof.
  intros Hc Hp Hm Hl.
  destruct (parse_line_literal_index _ _ _ _ Hc Hp Hm Hl) as [Hi Hn].
  unfold GlobsFile.match_. by rewrite Hi, Hn.
Qed.

(** In every index that parsing can build, the literal index of a name
    holds the position after the last rule whose glob is that name. *)
Lemma literal_index_points_past_rule self :
  Spec.reached self →
  ∀ name i, GlobsFile.literals self !! name = Some i →
    GlobsFile.is_literal name = true
    ∧ ∃ pos r, i = S pos
        ∧ GlobsFile.matches self !! pos = Some r
        ∧ GlobsFile.glob r = name
        ∧ ∀ j r', pos < j → GlobsFile.matches self !! j = Some r' →
            GlobsFile.glob r' ≠ name.
Proof.
  induction 1 as [|self line self' _ IH Hp]; intros name i.
  { unfold GlobsFile.__init__. simpl. by rewrite lookup_empty. }
  destruct (Str.startswith "#" line) eqn:Hc.
  { unfold GlobsFile.parse_line in Hp. rewrite Hc in Hp.
    injection Hp as <-. apply IH. }
  destruct (parse_line_matches _ _ _ Hc Hp) as [r Hm].
  pose proof (parse_line_literal_index _ _ _ r Hc Hp Hm) as Hlit.
  assert (GlobsFile.literals self' =
          if GlobsFile.is_literal (GlobsFile.glob r)
          then <[GlobsFile.glob r := length (GlobsFile.matches self')]>
                 (GlobsFile.literals self)
          else GlobsFile.literals self) as Hl.
  { clear Hlit. unfold GlobsFile.parse_line in Hp. rewrite Hc in Hp.
    repeat (destruct (Str.partition _ _) as [[? ?] ?]).
    destruct (Str.int _); [|discriminate].
    injection Hp as <-. simpl in *.
    apply app_inv_head in Hm. by injection Hm as <-. }
  rewrite Hl, Hm. clear Hl.
  destruct (GlobsFile.is_literal (GlobsFile.glob r)) eqn:Hr.
  - destruct (decide (GlobsFile.glob r = name)) as [<-|Hne].
    + rewrite lookup_insert_eq. intros [= <-]. split; [done|].
      exists (length (GlobsFile.matches self)), r.
      rewrite length_app, Nat.add_1_r. split; [done|].
      rewrite list_lookup_middle by done. repeat split.
      intros j r' Hj Hr'. apply lookup_lt_Some in Hr'.
      rewrite length_app in Hr'. simpl in Hr'. lia.
    + rewrite lookup_insert_ne by done. intros Hi.
      destruct (IH _ _ Hi) as (Hn & pos & r0 & -> & Hpos & Hg & Hlater).
      split; [done|]. exists pos, r0. split; [done|].
      split; [by apply lookup_app_l_Some|]. split; [done|].
      intros j r' Hj Hr'.
      apply lookup_app_Some in Hr' as [Hr'|[_ Hr']]; [by eapply Hlater|].
      apply list_lookup_singleton_Some in Hr' as [_ <-]. done.
  - intros Hi.
    destruct (IH _ _ Hi) as (Hn & pos & r0 & -> & Hpos & Hg & Hlater).
    split; [done|]. exists pos, r0. split; [done|].
    split; [by apply lookup_app_l_Some|]. split; [done|].
    intros j r' Hj Hr'.
    apply lookup_app_Some in Hr' as [Hr'|[_ Hr']]; [by eapply Hlater|].
    apply list_lookup_singleton_Some in Hr' as [_ <-]. congruence.
Qed.

(** So for a name of the literal index [match] answers with the rule that
    follows the literal rule, or raises [IndexError] when none follows. *)
Lemma match_literal_returns_next_rule self name :
  Spec.reached self →
  is_Some (GlobsFile.literals self !! name) →
  ∃ pos r,
    GlobsFile.matches self !! pos = Some r
    ∧ GlobsFile.glob r = name
    ∧ GlobsFile.match_ self name =
      match GlobsFile.matches self !! S pos with
      | Some next => Ok (GlobsFile.mime next)
      | None => Raise IndexError
      end.
Proof.
  intros Hreach [i Hi].
  destruct (literal_index_points_past_rule _ Hreach _ _ Hi)
    as (_ & pos & r & -> & Hpos & Hg & _).
  exists pos, r. repeat split; try done.
  unfold GlobsFile.match_. by rewrite Hi.
Qed.

(** ** The scan and the choice among the matching rules *)

Section Scan.
Import GlobsFile Spec.

Lemma key_gt_lt a b : key_gt a b = true ↔ key_lt b a.
Proof.
  unfold key_gt, key_lt. destruct a as [a1 a2], b as [b1 b2]. simpl.
  rewrite orb_true_iff, andb_true_iff, Z.ltb_lt, Z.eqb_eq, Nat.ltb_lt.
  intuition lia.
Qed.

Lemma key_not_gt_le a b : key_gt a b = false ↔ key_le a b.
Proof.
  rewrite <- not_true_iff_false, key_gt_lt. unfold key_lt, key_le.
  destruct a as [a1 a2], b as [b1 b2]. simpl. lia.
Qed.

Lemma key_lt_le_trans a b c : key_lt a b → key_le b c → key_lt a c.
Proof. unfold key_lt, key_le. lia. Qed.

Lemma key_le_lt_trans a b c : key_le a b → key_lt b c → key_lt a c.
Proof. unfold key_lt, key_le. lia. Qed.

Lemma key_le_trans a b c : key_le a b → key_le b c → key_le a c.
Proof. unfold key_le. lia. Qed.

Lemma key_lt_le a b : key_lt a b → key_le a b.
Proof. unfold key_lt, key_le. lia. Qed.

Lemma key_le_refl a : key_le a a.
Proof. unfold key_le. lia. Qed.

Lemma max_by_key_snoc first rest x :
  max_by_key first (rest ++ [x]) =
  if key_gt (key x) (key (max_by_key first rest)) then x
  else max_by_key first rest.
Proof. unfold max_by_key. by rewrite fold_left_app. Qed.

(** [max] returns the first of the items whose key is greatest. *)
Lemma max_by_key_first_greatest rest : ∀ first,
  ∃ pre post,
    first :: rest = pre ++ max_by_key first rest :: post
    ∧ (∀ x, x ∈ pre → key_lt (key x) (key (max_by_key first rest)))
    ∧ (∀ x, x ∈ post → key_le (key x) (key (max_by_key first rest))).
Proof.
  induction rest as [|x rest IH] using rev_ind; intros first.
  - exists [], []. split; [done|]. split; intros ? ?%elem_of_nil; done.
  - destruct (IH first) as (pre & post & Heq & Hpre & Hpost).
    rewrite max_by_key_snoc.
    destruct (key_gt _ _) eqn:Hgt.
    + apply key_gt_lt in Hgt.
      exists (first :: rest), []. split; [done|].
      split; [|intros ? ?%elem_of_nil; done].
      intros y Hy. rewrite Heq in Hy.
      apply elem_of_app in Hy as [Hy|Hy].
      * eapply key_lt_le_trans; [by apply Hpre|by apply key_lt_le].
      * apply elem_of_cons in Hy as [->|Hy]; [done|].
        eapply key_le_lt_trans; [by apply Hpost|done].
    + apply key_not_gt_le in Hgt.
      exists pre, (post ++ [x]). split.
      { rewrite app_comm_cons, Heq. by rewrite <- app_assoc. }
      split; [done|].
      intros y [Hy|Hy%list_elem_of_singleton]%elem_of_app; [by apply Hpost|].
      by subst.
Qed.

Lemma kept_cons name r rest :
  kept name (r :: rest) =
  if rule_matches name r then entry r :: kept name rest
  else kept name rest.
Proof. done. Qed.

Lemma kept_app name l1 l2 :
  kept name (l1 ++ l2) = kept name l1 ++ kept name l2.
Proof.
  induction l1 as [|r l1 IH]; [done|].
  rewrite <- app_comm_cons, !kept_cons, IH. by destruct (rule_matches _ _).
Qed.

(** The entries of the rules that match. *)
Lemma elem_of_kept name rules m :
  m ∈ kept name rules ↔
  ∃ r, r ∈ rules ∧ rule_matches name r = true ∧ m = entry r.
Proof.
  induction rules as [|r rules IH].
  - simpl. split; [intros ?%elem_of_nil; done|].
    intros (? & ?%elem_of_nil & _); done.
  - rewrite kept_cons. destruct (rule_matches name r) eqn:Hr.
    + rewrite elem_of_cons, IH. split.
      * intros [->|(r' & ? & ? & ?)].
        -- exists r. by rewrite elem_of_cons; auto.
        -- exists r'. rewrite elem_of_cons; auto.
      * intros (r' & [->|?]%elem_of_cons & ? & ?); [by left|].
        right. by exists r'.
    + rewrite IH. split.
      * intros (r' & ? & ? & ?). exists r'. rewrite elem_of_cons; auto.
      * intros (r' & [->|?]%elem_of_cons & ? & ?); [congruence|].
        by exists r'.
Qed.

(** A split of the kept entries comes from a split of the rules. *)
Lemma kept_split name rules : ∀ a m b,
  kept name rules = a ++ m :: b →
  ∃ pre r post,
    rules = pre ++ r :: post ∧ rule_matches name r = true ∧ m = entry r
    ∧ kept name pre = a ∧ kept name post = b.
Proof.
  induction rules as [|r rules IH]; intros a m b.
  - simpl. intros H. by apply app_cons_not_nil in H.
  - rewrite kept_cons. destruct (rule_matches name r) eqn:Hr.
    + destruct a as [|m' a]; simpl.
      * intros [= <- <-]. by exists [], r, rules.
      * intros [= <- H]. destruct (IH _ _ _ H) as (pre & r' & post & -> & ? & ? & ? & ?).
        exists (r :: pre), r', post. rewrite kept_cons, Hr.
        repeat split; try done. by f_equal.
    + intros H. destruct (IH _ _ _ H) as (pre & r' & post & -> & ? & ? & ? & ?).
      exists (r :: pre), r', post. rewrite kept_cons, Hr. done.
Qed.

Lemma key_entry r : key (entry r) = (weight r, String.length (glob r)).
Proof. done. Qed.

(** *** When [fnmatch] raises *)

Lemma bind_ok_raise {A B} (r : result A) (f : A → B) e :
  (x ← r; Ok (f x)) = Raise e → r = Raise e.
Proof. destruct r; simpl; intros H; [discriminate|]. by injection H as ->. Qed.

Lemma items_cons c1 s1 :
  Fnmatch.items (c1 :: s1) =
  match s1 with
  | dash :: c2 :: s2 =>
      if Ascii.eqb dash "-" then
        if nat_of_ascii c2 <? nat_of_ascii c1 then Raise ReError
        else rest ← Fnmatch.items s2; Ok ((c1, c2) :: rest)
      else rest ← Fnmatch.items s1; Ok ((c1, c1) :: rest)
  | _ => rest ← Fnmatch.items s1; Ok ((c1, c1) :: rest)
  end.
Proof. by destruct s1 as [|? [|? ?]]. Qed.

Lemma items_raises s : ∀ e, Fnmatch.items s = Raise e → e = ReError.
Proof.
  induction s as [s IH] using (induction_ltof1 _ (@length ascii)).
  unfold ltof in IH. intros e.
  destruct s as [|c1 s1]; [done|]. rewrite items_cons.
  destruct s1 as [|dash [|c2 s2]].
  - intros H%bind_ok_raise. done.
  - intros H%bind_ok_raise. apply (IH [dash]); [simpl; lia|done].
  - destruct (Ascii.eqb dash "-").
    + destruct (nat_of_ascii c2 <? nat_of_ascii c1); [by intros [= <-]|].
      intros H%bind_ok_raise. apply (IH s2); [simpl; lia|done].
    + intros H%bind_ok_raise.
      apply (IH (dash :: c2 :: s2)); [simpl; lia|done].
Qed.

Lemma class_raises stuff e : Fnmatch.class stuff = Raise e → e = ReError.
Proof.
  unfold Fnmatch.class. destruct stuff as [|c s]; [done|].
  destruct (Ascii.eqb c "!"); intros H%bind_ok_raise; by eapply items_raises.
Qed.

Lemma compile_from_raises pat : ∀ skip e,
  Fnmatch.compile_from skip pat = Raise e → e = ReError.
Proof.
  induction pat as [|c rest IH]; intros skip e; [done|]. simpl.
  destruct skip as [|k]; [|apply IH].
  destruct (Ascii.eqb c "*"); [intros H%bind_ok_raise; by eapply IH|].
  destruct (Ascii.eqb c "?"); [intros H%bind_ok_raise; by eapply IH|].
  destruct (Ascii.eqb c "["); [|intros H%bind_ok_raise; by eapply IH].
  destruct (Fnmatch.bracket rest) as [[stuff n]|];
    [|intros H%bind_ok_raise; by eapply IH].
  destruct (Fnmatch.class stuff) eqn:Hc; simpl.
  - intros H%bind_ok_raise. by eapply IH.
  - intros [= <-]. by eapply class_raises.
Qed.

(** [fnmatch] raises exactly for the globs that do not compile, whatever
    the name, and [re.error] is all it raises. *)
Lemma fnmatch_compiles name pat :
  Fnmatch.fnmatch name pat =
  if compiles pat then Ok (glob_matches name pat) else Raise ReError.
Proof.
  unfold compiles, glob_matches, Fnmatch.fnmatch, Fnmatch.compile.
  destruct (Fnmatch.compile_from 0 (list_ascii_of_string pat)) eqn:Hc;
    simpl; [done|].
  by rewrite (compile_from_raises _ _ _ Hc).
Qed.

Lemma glob_matches_compiles name pat :
  glob_matches name pat = true → compiles pat = true.
Proof.
  unfold glob_matches. rewrite fnmatch_compiles. by destruct (compiles pat).
Qed.

Lemma rule_matches_compiles name r :
  rule_matches name r = true → compiles (glob r) = true.
Proof.
  unfold rule_matches.
  intros [?|[_ ?]%andb_true_iff]%orb_true_iff; by eapply glob_matches_compiles.
Qed.

(** The loop of [match] collects the entries of the rules that match when
    every glob compiles, and raises [re.error] when one does not. *)
Lemma scan_kept name rules :
  scan name rules =
  if all_compile rules then Ok (kept name rules) else Raise ReError.
Proof.
  induction rules as [|r rules IH]; [done|].
  simpl. rewrite !fnmatch_compiles, IH. unfold rule_matches.
  destruct (compiles (glob r)); simpl; [|done].
  destruct (glob_matches name (glob r)); simpl.
  { by destruct (all_compile rules). }
  destruct (bool_decide ("cs" ∈ flags r)); simpl; [done|].
  destruct (glob_matches (Str.lower name) (glob r)); simpl; [|done].
  by destruct (all_compile rules).
Qed.

End Scan.

(** C2 (as amended). In an index all of whose globs [fnmatch] can compile,
    for a file name outside the literal index that at least one rule
    matches, [match] returns the type of a matching rule whose key
    (weight, then length of the glob) is greatest, and of the first such
    rule: every matching rule before it has a strictly smaller key, every
    matching rule after it a key that is not greater. *)
Theorem match_selects_first_greatest (self : GlobsFile.t) (name : string) :
  Spec.all_compile (GlobsFile.matches self) = true →
  GlobsFile.literals self !! name = None →
  (∃ r, r ∈ GlobsFile.matches self ∧ Spec.rule_matches name r = true) →
  ∃ pre r post,
    GlobsFile.matches self = pre ++ r :: post
    ∧ Spec.rule_matches name r = true
    ∧ GlobsFile.match_ self name = Ok (GlobsFile.mime r)
    ∧ (∀ r', r' ∈ pre → Spec.rule_matches name r' = true →
         Spec.key_lt (GlobsFile.weight r', String.length (GlobsFile.glob r'))
                     (GlobsFile.weight r, String.length (GlobsFile.glob r)))
    ∧ (∀ r', r' ∈ post → Spec.rule_matches name r' = true →
         Spec.key_le (GlobsFile.weight r', String.length (GlobsFile.glob r'))
                     (GlobsFile.weight r, String.length (GlobsFile.glob r))).
Proof.
  intros Hall Hlit (r0 & Hin & Hr0).
  assert (Spec.entry r0 ∈ Spec.kept name (GlobsFile.matches self)) as Hne.
  { apply elem_of_kept. by exists r0. }
  pose proof (scan_kept name (GlobsFile.matches self)) as Hscan.
  rewrite Hall in Hscan.
  destruct (Spec.kept name (GlobsFile.matches self))
    as [|first rest] eqn:Hkept.
  { by apply elem_of_nil in Hne. }
  destruct (max_by_key_first_greatest rest first)
    as (a & b & Heq & Ha & Hb).
  pose proof Hkept as Hsplit. rewrite Heq in Hsplit.
  destruct (kept_split _ _ _ _ _ Hsplit)
    as (pre & r & post & Hm & Hr & Hbest & Hpre & Hpost).
  exists pre, r, post. repeat split; try done.
  - unfold GlobsFile.match_. rewrite Hlit, Hscan. simpl. by rewrite Hbest.
  - intros r' Hr' Hmatch. rewrite <- !key_entry, <- Hbest. apply Ha.
    rewrite <- Hpre. apply elem_of_kept. by exists r'.
  - intros r' Hr' Hmatch. rewrite <- !key_entry, <- Hbest. apply Hb.
    rewrite <- Hpost. apply elem_of_kept. by exists r'.
Qed.

Lemma match_selects_first_greatest_witness :
  ∃ pre r post,
    GlobsFile.matches (Spec.loaded Spec.gz_then_tar_gz) = pre ++ r :: post
    ∧ Spec.rule_matches "x.tar.gz" r = true
    ∧ GlobsFile.match_ (Spec.loaded Spec.gz_then_tar_gz) "x.tar.gz"
      = Ok (GlobsFile.mime r)
    ∧ (∀ r', r' ∈ pre → Spec.rule_matches "x.tar.gz" r' = true →
         Spec.key_lt (GlobsFile.weight r', String.length (GlobsFile.glob r'))
                     (GlobsFile.weight r, String.length (GlobsFile.glob r)))
    ∧ (∀ r', r' ∈ post → Spec.rule_matches "x.tar.gz" r' = true →
         Spec.key_le (GlobsFile.weight r', String.length (GlobsFile.glob r'))
                     (GlobsFile.weight r, String.length (GlobsFile.glob r))).
Proof.
  apply (match_selects_first_greatest (Spec.loaded Spec.gz_then_tar_gz) "x.tar.gz").
  - reflexivity.
  - reflexivity.
  - exists (GlobsFile.Rule 50 "application/gzip" "*.gz" []).
    split; [left|reflexivity].
Defined.

(** One glob that [fnmatch] cannot compile is enough for [match] to raise:
    with the rules "*" and "[z-a]" loaded, the name "x" is outside the
    literal index and the rule "*" matches it, but [match] raises
    [re.error] on the reversed range of the other rule. *)
Lemma match_raises_on_reversed_range :
  GlobsFile.matches (Spec.loaded Spec.star_then_reversed)
  = [GlobsFile.Rule 50 "a/star" "*" []; GlobsFile.Rule 50 "a/rev" "[z-a]" []]
  ∧ GlobsFile.literals (Spec.loaded Spec.star_then_reversed) !! "x" = None
  ∧ Fnmatch.fnmatch "x" "*" = Ok true
  ∧ Fnmatch.fnmatch "x" "[z-a]" = Raise ReError
  ∧ GlobsFile.match_ (Spec.loaded Spec.star_then_reversed) "x" = Raise ReError.
Proof. repeat split; reflexivity. Qed.

(** At equal weight the longer glob wins, whichever rule was loaded first. *)
Example match_tar_gz :
  GlobsFile.match_ (Spec.loaded Spec.gz_then_tar_gz) "x.tar.gz"
  = Ok "application/x-compressed-tar".
Proof. reflexivity. Qed.

(** A rule of weight 60 wins over a rule of weight 50, whatever the two
    globs are and in whichever order the rules were loaded. *)
Lemma match_weight_60_over_50 name lits m1 g1 f1 m2 g2 f2 :
  lits !! name = None →
  Spec.rule_matches name (GlobsFile.Rule 50 m1 g1 f1) = true →
  Spec.rule_matches name (GlobsFile.Rule 60 m2 g2 f2) = true →
  GlobsFile.match_
    (GlobsFile.Make [GlobsFile.Rule 50 m1 g1 f1; GlobsFile.Rule 60 m2 g2 f2] lits)
    name = Ok m2
  ∧ GlobsFile.match_
      (GlobsFile.Make [GlobsFile.Rule 60 m2 g2 f2; GlobsFile.Rule 50 m1 g1 f1] lits)
      name = Ok m2.
Proof.
  intros Hl H1 H2. unfold GlobsFile.match_. simpl GlobsFile.literals.
  rewrite Hl. simpl GlobsFile.matches. rewrite !scan_kept.
  pose proof (rule_matches_compiles _ _ H1) as Hc1.
  pose proof (rule_matches_compiles _ _ H2) as Hc2.
  unfold Spec.all_compile. simpl in *. rewrite Hc1, Hc2. simpl.
  rewrite H1, H2. done.
Qed.

(** C3 (as amended). In a rule list all of whose globs [fnmatch] can
    compile, a rule without the "cs" flag is kept by the scan exactly when
    the file name or its lower-case form matches the glob of the rule; the
    glob is compared as it is written. *)
Theorem scan_lowercases_the_name (name : string)
    (rules : list GlobsFile.rule) (r : GlobsFile.rule) :
  Spec.all_compile rules = true →
  r ∈ rules →
  "cs" ∉ GlobsFile.flags r →
  ∃ found,
    GlobsFile.scan name rules = Ok found
    ∧ (Spec.entry r ∈ found ↔
       Fnmatch.fnmatch name (GlobsFile.glob r) = Ok true
       ∨ Fnmatch.fnmatch (Str.lower name) (GlobsFile.glob r) = Ok true).
Proof.
  intros Hall Hin Hcs. rewrite scan_kept, Hall. eexists. split; [done|].
  assert (∀ n g, Fnmatch.fnmatch n g = Ok true ↔ Spec.glob_matches n g = true)
    as Hg.
  { intros n g. unfold Spec.glob_matches.
    destruct (Fnmatch.fnmatch n g) as [[]|]; split; congruence. }
  rewrite !Hg, elem_of_kept. split.
  - intros (r' & _ & Hm & He). unfold Spec.entry in He.
    injection He as _ _ Hgl. rewrite Hgl.
    unfold Spec.rule_matches in Hm.
    apply orb_true_iff in Hm as [?|[_ ?]%andb_true_iff]; auto.
  - intros H. exists r. repeat split; [done|].
    unfold Spec.rule_matches. rewrite bool_decide_eq_false_2 by done.
    simpl. apply orb_true_iff. tauto.
Qed.

Lemma scan_lowercases_the_name_witness :
  ∃ found,
    GlobsFile.scan "photo.JPG" (GlobsFile.matches (Spec.loaded Spec.lower_jpg))
    = Ok found
    ∧ (Spec.entry (GlobsFile.Rule 50 "image/jpeg" "*.jpg" []) ∈ found ↔
       Fnmatch.fnmatch "photo.JPG" "*.jpg" = Ok true
       ∨ Fnmatch.fnmatch (Str.lower "photo.JPG") "*.jpg" = Ok true).
Proof.
  apply (scan_lowercases_the_name "photo.JPG"
           (GlobsFile.matches (Spec.loaded Spec.lower_jpg))
           (GlobsFile.Rule 50 "image/jpeg" "*.jpg" [])).
  - reflexivity.
  - left.
  - simpl. apply not_elem_of_nil.
Defined.

(** The rule "*.JPG" without the "cs" flag does not match "photo.jpg":
    neither the name nor its lower-case form matches the upper-case glob,
    and [match] finds no type. *)
Lemma upper_case_glob_misses_lower_case_name :
  GlobsFile.matches (Spec.loaded Spec.upper_jpg)
  = [GlobsFile.Rule 50 "image/jpeg" "*.JPG" []]
  ∧ Spec.rule_matches "photo.jpg" (GlobsFile.Rule 50 "image/jpeg" "*.JPG" [])
    = false
  ∧ GlobsFile.scan "photo.jpg" (GlobsFile.matches (Spec.loaded Spec.upper_jpg))
    = Ok []
  ∧ GlobsFile.match_ (Spec.loaded Spec.upper_jpg) "photo.jpg" = Ok "".
Proof. repeat split; reflexivity. Qed.

(** The fallback in the direction the code has it. *)
Example lower_case_glob_matches_upper_case_name :
  GlobsFile.scan "photo.JPG" (GlobsFile.matches (Spec.loaded Spec.lower_jpg))
  = Ok [(50%Z, "image/jpeg", "*.jpg")]
  ∧ GlobsFile.match_ (Spec.loaded Spec.lower_jpg) "photo.JPG" = Ok "image/jpeg".
Proof. split; reflexivity. Qed.

(** ** The attributes of a fresh instance *)

Section Instance.
Import BaseMime.

Lemma name_init mime : name (__init__ mime) = Ok mime.
Proof.
  unfold name, getattr, __init__.
  by rewrite lookup_insert_ne, lookup_insert_eq.
Qed.

(** [__init__] binds [_comment] to [None]. *)
Lemma comment_attr_init mime : getattr (__init__ mime) "_comment" = Ok VNone.
Proof. unfold getattr, __init__. by rewrite lookup_insert_eq. Qed.

(** [__init__] does not bind [_aliases], and the class has no such
    attribute. *)
Lemma aliases_attr_init mime :
  getattr (__init__ mime) "_aliases" = Raise AttributeError.
Proof.
  unfold getattr, __init__.
  by rewrite !lookup_insert_ne, lookup_empty.
Qed.

(** The defaults are attributes of the class, not names of the module. *)
Lemma defaults_are_class_attributes self :
  self !! "DEFAULT_TEXT" = None →
  self !! "DEFAULT_BINARY" = None →
  getattr self "DEFAULT_TEXT" = Ok (VStr "text/plain")
  ∧ getattr self "DEFAULT_BINARY" = Ok (VStr "application/octet-stream")
  ∧ load_global "DEFAULT_TEXT" = Raise NameError
  ∧ load_global "DEFAULT_BINARY" = Raise NameError.
Proof. unfold getattr. intros -> ->. repeat split; reflexivity. Qed.

End Instance.

(** C4. [comment] raises [TypeError] on every instance [__init__] has
    made, for every language and whatever documents exist: [_comment] is
    [None], and [lang not in None] is a type error. It neither returns the
    text of an element that exists nor an absent value. *)
Theorem comment_raises_type_error (h : Host.t) (mime : pyval) (lang : string) :
  MimeType.comment h lang (BaseMime.__init__ mime)
  = (BaseMime.__init__ mime, Raise TypeError).
Proof.
  unfold MimeType.comment, MimeType.load, MimeType.call.
  unfold mbind, MimeType.M_bind. by rewrite comment_attr_init.
Qed.

(** On an instance whose [_comment] were a dictionary, the body finds the
    comment of a language that has one, and raises [KeyError] for a
    language that has none. *)
Example comment_body_on_dictionary :
  (MimeType.comment Spec.plain_host "en" (Spec.prepared "text/plain")).2
  = Ok (VStr "plain text document")
  ∧ (MimeType.comment Spec.plain_host "de" (Spec.prepared "text/plain")).2
    = Ok (VStr "Einfaches Textdokument")
  ∧ (MimeType.comment Spec.plain_host "fr" (Spec.prepared "text/plain")).2
    = Raise KeyError.
Proof. vm_compute. auto. Qed.

(** C5. [__eq__] raises [NameError] whatever it is compared with: the
    name [BaseMimeType] is bound nowhere. *)
Theorem eq_raises_name_error (self : BaseMime.obj) (other : BaseMime.operand) :
  BaseMime.__eq__ self other = Raise NameError.
Proof. reflexivity. Qed.

(** C6. [isDefault] raises [NameError] on every instance [__init__] has
    made: [DEFAULT_BINARY] is an attribute of the class and no name of the
    module. *)
Theorem isDefault_raises_name_error (mime : pyval) :
  BaseMime.isDefault (BaseMime.__init__ mime) = Raise NameError.
Proof. unfold BaseMime.isDefault. by rewrite name_init. Qed.

(** ** The icon of a type *)

Lemma replace_length a b s :
  String.length (Str.replace a b s) = String.length s.
Proof. induction s as [|c s IH]; simpl; congruence. Qed.

Lemma replace_nonempty a b s : s ≠ EmptyString → Str.replace a b s ≠ EmptyString.
Proof. by destruct s. Qed.

Lemma icon_unfold icons mime :
  MimeType.icon icons (BaseMime.__init__ (VStr mime)) =
  Ok (VStr match IconsFile.get icons mime with
           | Some g => if Str.truthy g then g else Str.replace "/" "-" mime
           | None => Str.replace "/" "-" mime
           end).
Proof.
  unfold MimeType.icon, BaseMime.icon, MimeType.genericIcon.
  rewrite name_init. simpl.
  destruct (IconsFile.get icons mime) as [g|]; simpl; [|done].
  by destruct (Str.truthy g).
Qed.

(** C7 (as amended). [icon] of a type whose name is a string always
    returns a string: the registered generic icon when there is one and it
    is not empty, and otherwise (none registered, or the empty one) the
    type name with "/" replaced by "-", which has the length of the name
    and so is not empty when the name is not. *)
Theorem icon_registered_or_derived (icons : gmap string string) (mime : string) :
  (∃ s, MimeType.icon icons (BaseMime.__init__ (VStr mime)) = Ok (VStr s)
        ∧ (mime ≠ EmptyString → s ≠ EmptyString))
  ∧ (∀ g, IconsFile.get icons mime = Some g → g ≠ EmptyString →
       MimeType.icon icons (BaseMime.__init__ (VStr mime)) = Ok (VStr g))
  ∧ (IconsFile.get icons mime = None
     ∨ IconsFile.get icons mime = Some EmptyString →
       MimeType.icon icons (BaseMime.__init__ (VStr mime))
       = Ok (VStr (Str.replace "/" "-" mime)))
  ∧ String.length (Str.replace "/" "-" mime) = String.length mime.
Proof.
  rewrite icon_unfold. repeat split.
  - eexists. split; [done|]. intros Hne.
    destruct (IconsFile.get icons mime) as [[|c g]|]; simpl;
      try by apply replace_nonempty.
    done.
  - intros g -> Hg. by destruct g.
  - by intros [->| ->].
  - apply replace_length.
Qed.

Lemma icon_registered_or_derived_witness :
  MimeType.icon ∅ (BaseMime.__init__ (VStr "application/x-foo"))
  = Ok (VStr "application-x-foo")
  ∧ MimeType.icon {[ "text/plain" := "text-x-generic" ]}
      (BaseMime.__init__ (VStr "text/plain"))
    = Ok (VStr "text-x-generic").
Proof.
  split.
  - apply (icon_registered_or_derived ∅ "application/x-foo"). by left.
  - apply (icon_registered_or_derived {[ "text/plain" := "text-x-generic" ]}
             "text/plain"); [reflexivity|discriminate].
Defined.

(** A generic icon that is registered with the empty name is not what
    [icon] returns: the derived name is. *)
Lemma icon_ignores_empty_registration :
  IconsFile.parse ∅ Spec.empty_icon = ({[ "a/b" := EmptyString ]}, Ok tt)
  ∧ IconsFile.get {[ "a/b" := EmptyString ]} "a/b" = Some EmptyString
  ∧ MimeType.icon {[ "a/b" := EmptyString ]} (BaseMime.__init__ (VStr "a/b"))
    = Ok (VStr "a-b")
  ∧ MimeType.icon {[ "a/b" := EmptyString ]} (BaseMime.__init__ (VStr "a/b"))
    ≠ Ok (VStr EmptyString).
Proof. repeat split; try reflexivity. rewrite icon_unfold. discriminate. Qed.

(** C8. [aliases] raises [AttributeError] on every instance [__init__] has
    made, whether documents exist for the type or not: nothing binds
    [_aliases] before the method reads it. *)
Theorem aliases_raises_attribute_error (h : Host.t) (mime : pyval) :
  MimeType.aliases h (BaseMime.__init__ mime)
  = (BaseMime.__init__ mime, Raise AttributeError).
Proof.
  unfold MimeType.aliases, MimeType.load, MimeType.call.
  unfold mbind, MimeType.M_bind. by rewrite aliases_attr_init.
Qed.

(** On an instance whose [_aliases] were a list, the body collects the
    aliases once each, and returns [None] for a type without document. *)
Example aliases_body_on_list :
  (MimeType.aliases Spec.plain_host (Spec.prepared "text/plain")).2
  = Ok (VList ["text/x-plain"; "text/ascii"])
  ∧ (MimeType.aliases Spec.plain_host (Spec.prepared "text/x-none")).2
    = Ok VNone.
Proof. vm_compute. auto. Qed.

(** ** What makes [parse] fail *)

Section Parse.
Import GlobsFile Spec.

Lemma parse_line_comment self line :
  Str.startswith "#" line = true → parse_line self line = Ok self.
Proof. unfold parse_line. by intros ->. Qed.

(** A line that is no comment fails exactly on its weight; when the weight
    is an integer the line becomes a rule, whatever the other fields. *)
Lemma parse_line_weight self line :
  Str.startswith "#" line = false →
  match Str.int (weight_field line) with
  | None => parse_line self line = Raise ValueError
  | Some w =>
      ∃ self' r, parse_line self line = Ok self'
                 ∧ matches self' = matches self ++ [r]
                 ∧ weight r = w
  end.
Proof.
  unfold parse_line, weight_field, chomp. intros ->.
  destruct (Str.partition ":" _) as [[w ?] l1]. simpl.
  destruct (Str.partition ":" l1) as [[? ?] l2].
  destruct (Str.partition ":" l2) as [[? ?] l3].
  destruct (Str.partition ":" l3) as [[? ?] ?].
  destruct (Str.int w); [|done]. eauto.
Qed.

Lemma parse_line_bad self line :
  bad_line line = true → parse_line self line = Raise ValueError.
Proof.
  unfold bad_line. intros [Hc Hw]%andb_true_iff.
  apply negb_true_iff in Hc. apply negb_true_iff, bool_decide_eq_false in Hw.
  pose proof (parse_line_weight self line Hc) as H.
  destruct (Str.int (weight_field line)); [|done].
  destruct Hw. eauto.
Qed.

Lemma parse_line_good self line :
  bad_line line = false → ∃ self', parse_line self line = Ok self'.
Proof.
  unfold bad_line. intros H.
  destruct (Str.startswith "#" line) eqn:Hc.
  { exists self. by apply parse_line_comment. }
  pose proof (parse_line_weight self line Hc) as Hw.
  simpl in H. apply negb_false_iff, bool_decide_eq_true in H as [w Hi].
  rewrite Hi in Hw. destruct Hw as (self' & ? & ? & _). eauto.
Qed.

Lemma parse_lines_result lines : ∀ self,
  (parse_lines self lines).2 =
  if existsb bad_line lines then Raise ValueError else Ok tt.
Proof.
  induction lines as [|line lines IH]; intros self; [done|].
  simpl. destruct (bad_line line) eqn:Hb; simpl.
  - by rewrite parse_line_bad.
  - destruct (parse_line_good self line Hb) as [self' ->]. apply IH.
Qed.

(** A missing weight is no integer. *)
Lemma missing_weight_is_bad line :
  Str.startswith "#" line = false →
  weight_field line = EmptyString →
  bad_line line = true.
Proof. unfold bad_line. by intros -> ->. Qed.

End Parse.

Section Fields.
Variable c : ascii.

Lemma partition_not_found s h t :
  Str.partition c s = (h, EmptyString, t) → t = EmptyString.
Proof.
  revert h. induction s as [|a s IH]; intros h; simpl.
  - by intros [= _ <-].
  - destruct (Ascii.eqb a c); [done|].
    destruct (Str.partition c s) as [[h' m'] t'] eqn:Hp.
    intros [= _ -> ->]. by eapply IH.
Qed.

Lemma split_partition s :
  Str.split c s =
  let '(h, m, t) := Str.partition c s in
  if Str.truthy m then h :: Str.split c t else [h].
Proof.
  induction s as [|a s IH]; [done|]. simpl.
  destruct (Ascii.eqb a c); [done|].
  rewrite IH. destruct (Str.partition c s) as [[h m] t].
  by destruct (Str.truthy m).
Qed.

Lemma nth_split_head s :
  nth 0 (Str.split c s) EmptyString = (Str.partition c s).1.1.
Proof.
  rewrite split_partition. destruct (Str.partition c s) as [[h m] t].
  by destruct (Str.truthy m).
Qed.

Lemma nth_split_tail i s :
  nth (S i) (Str.split c s) EmptyString
  = nth i (Str.split c (Str.partition c s).2) EmptyString.
Proof.
  rewrite split_partition.
  destruct (Str.partition c s) as [[h m] t] eqn:Hp. simpl.
  destruct m as [|? ?]; simpl; [|done].
  rewrite (partition_not_found _ _ _ Hp). by destruct i as [|[|?]].
Qed.

End Fields.

(** A line that is no comment is read by its first four fields; the weight
    alone can fail. *)
Lemma parse_line_by_fields self line :
  Str.startswith "#" line = false →
  GlobsFile.parse_line self line =
  match Str.int (Globs.field 0 line) with
  | None => Raise ValueError
  | Some w =>
      Ok {| GlobsFile.matches :=
              GlobsFile.matches self
              ++ [GlobsFile.Rule w (Globs.field 1 line) (Globs.field 2 line)
                    (Globs.flags_of (Globs.field 3 line))];
            GlobsFile.literals :=
              if GlobsFile.is_literal (Globs.field 2 line)
              then <[Globs.field 2 line := S (length (GlobsFile.matches self))]>
                     (GlobsFile.literals self)
              else GlobsFile.literals self |}
  end.
Proof.
  intros Hc. unfold GlobsFile.parse_line, Globs.field, Globs.flags_of.
  rewrite Hc.
  change (if Str.endswith "010" line then Str.drop_last line else line)
    with (Spec.chomp line).
  rewrite !nth_split_tail, !nth_split_head.
  destruct (Str.partition ":" (Spec.chomp line)) as [[wt ?] l1]. simpl.
  destruct (Str.partition ":" l1) as [[mime ?] l2]. simpl.
  destruct (Str.partition ":" l2) as [[glob ?] l3]. simpl.
  destruct (Str.partition ":" l3) as [[fl ?] ?]. simpl.
  destruct (Str.int wt); [|done].
  by rewrite length_app, Nat.add_1_r.
Qed.

(** C9 (as amended). [parse] raises [ValueError] exactly when a line of the
    source that is no comment has a weight, the text before its first
    colon, that is no integer; the check of the other fields is absent. A
    line that is no comment and has an integer weight becomes the rule of
    its first four fields, a field that the line does not have being the
    empty string. *)
Theorem parse_checks_only_the_weight :
  (∀ self content,
     (GlobsFile.parse self content).2 =
     if existsb Spec.bad_line (Str.lines content) then Raise ValueError
     else Ok tt)
  ∧ (∀ self line,
       Str.startswith "#" line = false →
       GlobsFile.parse_line self line =
       match Str.int (Globs.field 0 line) with
       | None => Raise ValueError
       | Some w =>
           Ok {| GlobsFile.matches :=
                   GlobsFile.matches self
                   ++ [GlobsFile.Rule w (Globs.field 1 line)
                         (Globs.field 2 line)
                         (Globs.flags_of (Globs.field 3 line))];
                 GlobsFile.literals :=
                   if GlobsFile.is_literal (Globs.field 2 line)
                   then <[Globs.field 2 line :=
                            S (length (GlobsFile.matches self))]>
                          (GlobsFile.literals self)
                   else GlobsFile.literals self |}
       end)
  ∧ (∀ line, Spec.weight_field line = Globs.field 0 line)
  ∧ (∀ line i,
       length (Str.split ":" (Spec.chomp line)) ≤ i →
       Globs.field i line = EmptyString).
Proof.
  split; [|split; [|split]].
  - intros self content. apply parse_lines_result.
  - apply parse_line_by_fields.
  - intros line. unfold Spec.weight_field, Globs.field.
    by rewrite nth_split_head.
  - intros line i Hi. unfold Globs.field. by apply nth_overflow.
Qed.

Lemma parse_checks_only_the_weight_witness :
  GlobsFile.parse_line GlobsFile.__init__ Spec.weight_only
  = Ok {| GlobsFile.matches := [GlobsFile.Rule 50 "" "" []];
          GlobsFile.literals := {[ EmptyString := 1 ]} |}
  ∧ Globs.field 1 Spec.weight_only = EmptyString.
Proof.
  destruct parse_checks_only_the_weight as (_ & Hline & _ & Hmissing).
  split.
  - rewrite (Hline GlobsFile.__init__ Spec.weight_only); reflexivity.
  - apply (Hmissing Spec.weight_only 1). vm_compute. lia.
Defined.

(** A line without type and glob, and a line without glob, are loaded as
    rules whose missing fields are empty strings. *)
Lemma parse_accepts_missing_type_and_glob :
  GlobsFile.parse GlobsFile.__init__ Spec.weight_only
  = ({| GlobsFile.matches := [GlobsFile.Rule 50 "" "" []];
        GlobsFile.literals := {[ EmptyString := 1 ]} |}, Ok tt)
  ∧ GlobsFile.parse GlobsFile.__init__ Spec.no_glob
    = ({| GlobsFile.matches := [GlobsFile.Rule 50 "text/plain" "" []];
          GlobsFile.literals := {[ EmptyString := 1 ]} |}, Ok tt).
Proof. split; reflexivity. Qed.

(** A line without weight fails the load. *)
Example parse_rejects_missing_weight :
  (GlobsFile.parse GlobsFile.__init__ Spec.no_weight).2 = Raise ValueError.
Proof. reflexivity. Qed.

(** ** [fromName] *)

(** C10. [match] returns the empty string when no rule matches, and
    [fromName] makes an instance exactly when [match] returns a string that
    is not empty, so no instance has the empty name, and a rule whose type
    name is empty gives the same absent result as no rule at all. *)
Theorem fromName_absent_iff_empty (globs : GlobsFile.t) (name : string) :
  (GlobsFile.literals globs !! name = None →
   GlobsFile.scan name (GlobsFile.matches globs) = Ok [] →
   GlobsFile.match_ globs name = Ok EmptyString)
  ∧ (∀ o, MimeType.fromName globs name = Ok (Some o) ↔
          ∃ m, GlobsFile.match_ globs name = Ok m ∧ m ≠ EmptyString
               ∧ o = BaseMime.__init__ (VStr m))
  ∧ (MimeType.fromName globs name = Ok None ↔
     GlobsFile.match_ globs name = Ok EmptyString)
  ∧ (∀ o, MimeType.fromName globs name = Ok (Some o) →
          BaseMime.name o ≠ Ok (VStr EmptyString)).
Proof.
  assert (∀ o, MimeType.fromName globs name = Ok (Some o) ↔
          ∃ m, GlobsFile.match_ globs name = Ok m ∧ m ≠ EmptyString
               ∧ o = BaseMime.__init__ (VStr m)) as Hsome.
  { intros o. unfold MimeType.fromName.
    destruct (GlobsFile.match_ globs name) as [m|e]; simpl.
    - destruct m as [|c m]; simpl.
      + split; [done|]. by intros (? & [= <-] & ? & _).
      + split.
        * intros [= <-]. by eexists.
        * by intros (? & [= <-] & _ & ->).
    - split; [done|]. by intros (? & ? & _). }
  repeat split.
  - intros Hl Hs. unfold GlobsFile.match_. by rewrite Hl, Hs.
  - apply Hsome.
  - apply Hsome.
  - unfold MimeType.fromName.
    destruct (GlobsFile.match_ globs name) as [[|c m]|e]; simpl; done.
  - intros H. unfold MimeType.fromName. by rewrite H.
  - intros o (m & _ & Hm & ->)%Hsome. rewrite name_init. congruence.
Qed.

Lemma fromName_absent_iff_empty_witness :
  Spec.rule_matches "a.txt" (GlobsFile.Rule 50 "" "*.txt" []) = true
  ∧ MimeType.fromName (Spec.loaded Spec.empty_type) "a.txt" = Ok None
  ∧ MimeType.fromName (Spec.loaded Spec.empty_type) "a.bin" = Ok None.
Proof.
  split; [reflexivity|]. split.
  - apply (fromName_absent_iff_empty (Spec.loaded Spec.empty_type) "a.txt").
    reflexivity.
  - apply (fromName_absent_iff_empty (Spec.loaded Spec.empty_type) "a.bin").
    reflexivity.
Defined.

(** * Further properties *)

(** ** Strings *)

Section Strings.
Variable c : ascii.

Lemma app_cons a s t : String a s +:+ t = String a (s +:+ t).
Proof. done. Qed.

Lemma split_length s : length (Str.split c s) = S (Str.count c s).
Proof.
  induction s as [|a s IH]; [done|]. simpl.
  destruct (Ascii.eqb a c); simpl; [by rewrite IH|].
  destruct (Str.split c s); simpl in *; lia.
Qed.

Lemma count_contains s : Str.count c s = 0 ↔ Str.contains c s = false.
Proof.
  induction s as [|a s IH]; [done|]. simpl.
  destruct (Ascii.eqb a c); simpl; [split; [lia|done]|done].
Qed.

Lemma split_no_sep s : Str.contains c s = false → Str.split c s = [s].
Proof.
  induction s as [|a s IH]; [done|]. simpl.
  destruct (Ascii.eqb a c); [done|]. simpl. by intros ->%IH.
Qed.

Lemma split_app s t :
  Str.contains c s = false →
  Str.split c (s +:+ String c t) = s :: Str.split c t.
Proof.
  induction s as [|a s IH].
  - intros _. change (EmptyString +:+ String c t) with (String c t).
    simpl. by rewrite Ascii.eqb_refl.
  - simpl. destruct (Ascii.eqb a c) eqn:Ha; [done|]. simpl. intros H.
    by rewrite IH.
Qed.

(** Two fields come from exactly one separator. *)
Lemma split_two s k v :
  Str.split c s = [k; v] ↔
  s = k +:+ String c v ∧ Str.contains c k = false ∧ Str.contains c v = false.
Proof.
  split.
  - revert k. induction s as [|a s IH]; intros k; [done|]. simpl.
    destruct (Ascii.eqb a c) eqn:Ha.
    + apply Ascii.eqb_eq in Ha as ->. intros [= <- Hv].
      assert (Str.count c s = 0) as Hc.
      { pose proof (split_length s) as Hl. rewrite Hv in Hl. simpl in Hl. lia. }
      apply count_contains in Hc. rewrite split_no_sep in Hv by done.
      injection Hv as <-. done.
    + destruct (Str.split c s) as [|h t] eqn:Hs; [done|].
      intros [= <- ->]. destruct (IH h eq_refl) as (-> & Hh & Hv).
      simpl. by rewrite Ha.
  - intros (-> & Hk & Hv). by rewrite split_app, split_no_sep.
Qed.

Lemma partition_no_sep s :
  Str.contains c s = false →
  Str.partition c s = (s, EmptyString, EmptyString).
Proof.
  induction s as [|a s IH]; [done|]. simpl.
  destruct (Ascii.eqb a c); [done|]. simpl. by intros ->%IH.
Qed.

Lemma partition_app s t :
  Str.contains c s = false →
  Str.partition c (s +:+ String c t) = (s, String c EmptyString, t).
Proof.
  induction s as [|a s IH].
  - intros _. change (EmptyString +:+ String c t) with (String c t).
    simpl. by rewrite Ascii.eqb_refl.
  - simpl. destruct (Ascii.eqb a c) eqn:Ha; [done|]. simpl. intros H.
    by rewrite IH.
Qed.

Lemma endswith_app s : Str.endswith c (s +:+ String c EmptyString) = true.
Proof.
  induction s as [|a s IH]; [simpl; apply Ascii.eqb_refl|].
  rewrite app_cons. simpl.
  destruct (s +:+ String c EmptyString) eqn:Hs; [by destruct s|done].
Qed.

Lemma drop_last_app s : Str.drop_last (s +:+ String c EmptyString) = s.
Proof.
  induction s as [|a s IH]; [done|].
  rewrite app_cons. simpl.
  destruct (s +:+ String c EmptyString) eqn:Hs; [by destruct s|].
  by rewrite IH.
Qed.

End Strings.

Lemma chomp_app_nl s : Spec.chomp (s +:+ Spec.nl) = s.
Proof.
  unfold Spec.chomp, Spec.nl. by rewrite endswith_app, drop_last_app.
Qed.

Lemma app_assoc_string (s t u : string) : (s +:+ t) +:+ u = s +:+ (t +:+ u).
Proof. induction s as [|a s IH]; [done|]. rewrite !app_cons. by f_equal. Qed.

(** ** Files of keys and values: the alias table and the icon table *)

Section Tables.
Variable sep : ascii.

Lemma table_line_raises table l :
  Str.count sep (Spec.chomp l) ≠ 1 →
  Table.line sep table l = Raise ValueError.
Proof.
  intros Hc. unfold Table.line.
  pose proof (split_length sep (Spec.chomp l)) as Hl.
  destruct (Str.split sep (Spec.chomp l)) as [|k [|v [|? ?]]]; try done.
  simpl in Hl. lia.
Qed.

Lemma table_line_ok table l :
  Str.count sep (Spec.chomp l) = 1 →
  ∃ k v, Str.split sep (Spec.chomp l) = [k; v]
         ∧ Table.line sep table l = Ok (<[k := v]> table).
Proof.
  intros Hc. unfold Table.line.
  pose proof (split_length sep (Spec.chomp l)) as Hl. rewrite Hc in Hl.
  destruct (Str.split sep (Spec.chomp l)) as [|k [|v [|? ?]]]; try done.
  eauto.
Qed.

Lemma table_line_fields table k v :
  Str.contains sep k = false →
  Str.contains sep v = false →
  Table.line sep table (k +:+ String sep v +:+ Spec.nl)
  = Ok (<[k := v]> table).
Proof.
  intros Hk Hv. unfold Table.line.
  replace (k +:+ String sep v +:+ Spec.nl)
    with ((k +:+ String sep v) +:+ Spec.nl)
    by (rewrite app_assoc_string; done).
  rewrite chomp_app_nl.
  by rewrite (proj2 (split_two sep _ k v)).
Qed.

Lemma table_lines_app table ls1 ls2 :
  Table.lines sep table (ls1 ++ ls2) =
  match Table.lines sep table ls1 with
  | (table', Ok _) => Table.lines sep table' ls2
  | (table', Raise e) => (table', Raise e)
  end.
Proof.
  revert table. induction ls1 as [|l ls1 IH]; intros table; [done|].
  simpl. destruct (Table.line sep table l); [apply IH|done].
Qed.

(** Lines with other keys leave the value of a key as it is. *)
Lemma table_lines_other_keys ls : ∀ table table' k,
  Table.lines sep table ls = (table', Ok tt) →
  (∀ l, l ∈ ls → Table.key sep l ≠ Some k) →
  table' !! k = table !! k.
Proof.
  induction ls as [|l ls IH]; intros table table' k; simpl.
  { by intros [= <-]. }
  intros Hp Hk. unfold Table.line in Hp.
  pose proof (Hk l (list_elem_of_here _ _)) as Hl. unfold Table.key in Hl.
  destruct (Str.split sep (Spec.chomp l)) as [|k' [|v [|? ?]]]; try done.
  rewrite (IH _ _ k Hp).
  - apply lookup_insert_ne. congruence.
  - intros l' Hl'. apply Hk. by apply list_elem_of_further.
Qed.

(** Of the lines with one key, the last one gives the value. *)
Lemma table_last_line_wins table pre post k v table' :
  Table.lines sep table (pre ++ (k +:+ String sep v +:+ Spec.nl) :: post)
  = (table', Ok tt) →
  Str.contains sep k = false →
  Str.contains sep v = false →
  (∀ l, l ∈ post → Table.key sep l ≠ Some k) →
  table' !! k = Some v.
Proof.
  intros Hp Hk Hv Hpost. rewrite table_lines_app in Hp.
  destruct (Table.lines sep table pre) as [t1 [[]|e]]; [|done].
  simpl in Hp. rewrite table_line_fields in Hp by done.
  rewrite (table_lines_other_keys _ _ _ _ Hp Hpost).
  apply lookup_insert_eq.
Qed.

End Tables.

Lemma aliases_parse_lines_table aliases ls :
  AliasesFile.parse_lines aliases ls = Table.lines " " aliases ls.
Proof.
  revert aliases. induction ls as [|l ls IH]; intros aliases; [done|].
  simpl. change (AliasesFile.parse_line aliases l) with (Table.line " " aliases l).
  destruct (Table.line " " aliases l); [apply IH|done].
Qed.

Lemma icons_parse_lines_table icons ls :
  IconsFile.parse_lines icons ls = Table.lines ":" icons ls.
Proof.
  revert icons. induction ls as [|l ls IH]; intros icons; [done|].
  simpl. change (IconsFile.parse_line icons l) with (Table.line ":" icons l).
  destruct (Table.line ":" icons l); [apply IH|done].
Qed.

(** X1. A line "mime alias" of the alias file, neither field holding a
    space, binds [mime] to [alias]: [get] then returns [alias] for [mime]
    and what it returned before for every other name. *)
Theorem aliases_line_then_get (aliases : gmap string string)
    (mime alias : string) :
  Str.contains " " mime = false →
  Str.contains " " alias = false →
  ∃ aliases',
    AliasesFile.parse_line aliases (mime +:+ " " +:+ alias +:+ Spec.nl)
    = Ok aliases'
    ∧ AliasesFile.get aliases' mime = Some alias
    ∧ ∀ other, other ≠ mime →
        AliasesFile.get aliases' other = AliasesFile.get aliases other.
Proof.
  intros Hm Ha. exists (<[mime := alias]> aliases). split; [|split].
  - by apply (table_line_fields " ").
  - apply lookup_insert_eq.
  - intros other Hne. unfold AliasesFile.get. by rewrite lookup_insert_ne.
Qed.

Lemma aliases_line_then_get_witness :
  ∃ aliases',
    AliasesFile.parse_line ∅ ("text/x-foo" +:+ " " +:+ "text/foo" +:+ Spec.nl)
    = Ok aliases'
    ∧ AliasesFile.get aliases' "text/x-foo" = Some "text/foo"
    ∧ ∀ other, other ≠ "text/x-foo" →
        AliasesFile.get aliases' other = AliasesFile.get ∅ other.
Proof.
  apply (aliases_line_then_get ∅ "text/x-foo" "text/foo"); reflexivity.
Defined.

(** X2. A line of the alias file raises [ValueError] exactly when, its line
    feed apart, it does not hold exactly one space. *)
Theorem aliases_line_raises_iff (aliases : gmap string string) (line : string) :
  AliasesFile.parse_line aliases line = Raise ValueError ↔
  Str.count " " (Spec.chomp line) ≠ 1.
Proof.
  change (AliasesFile.parse_line aliases line) with (Table.line " " aliases line).
  split.
  - intros Hr Hc. destruct (table_line_ok " " aliases line Hc) as (? & ? & _ & Ho).
    congruence.
  - apply table_line_raises.
Qed.

Lemma aliases_line_raises_iff_witness :
  AliasesFile.parse_line ∅ ("text/x-foo text/foo extra" +:+ Spec.nl)
  = Raise ValueError.
Proof.
  apply (aliases_line_raises_iff ∅ ("text/x-foo text/foo extra" +:+ Spec.nl)).
  vm_compute. lia.
Defined.

(** X3. When an alias file loads, the last of its lines for a name gives
    the alias of that name. *)
Theorem aliases_last_line_wins (aliases aliases' : gmap string string)
    (pre post : list string) (mime alias : string) :
  AliasesFile.parse_lines aliases
    (pre ++ (mime +:+ " " +:+ alias +:+ Spec.nl) :: post) = (aliases', Ok tt) →
  Str.contains " " mime = false →
  Str.contains " " alias = false →
  (∀ l, l ∈ post → Table.key " " l ≠ Some mime) →
  AliasesFile.get aliases' mime = Some alias.
Proof.
  rewrite aliases_parse_lines_table. apply (table_last_line_wins " ").
Qed.

Lemma aliases_last_line_wins_witness :
  AliasesFile.get
    (AliasesFile.parse ∅ ("a/x b/one" +:+ Spec.nl +:+ "a/x b/two" +:+ Spec.nl
                          +:+ "a/y b/three" +:+ Spec.nl)).1
    "a/x" = Some "b/two".
Proof.
  apply (aliases_last_line_wins ∅ _ ["a/x b/one" +:+ Spec.nl]
           ["a/y b/three" +:+ Spec.nl] "a/x" "b/two").
  - reflexivity.
  - reflexivity.
  - reflexivity.
  - intros l ->%list_elem_of_singleton. discriminate.
Defined.

(** X4. A line "mime:icon" of the icon file, neither field holding a colon
    and the icon not empty, registers the icon: [genericIcon] and [icon]
    of the type named [mime] then both return it. *)
Theorem icons_line_then_icon (icons : gmap string string) (mime ico : string) :
  Str.contains ":" mime = false →
  Str.contains ":" ico = false →
  ico ≠ EmptyString →
  ∃ icons',
    IconsFile.parse_line icons (mime +:+ ":" +:+ ico +:+ Spec.nl) = Ok icons'
    ∧ IconsFile.get icons' mime = Some ico
    ∧ MimeType.genericIcon icons' (BaseMime.__init__ (VStr mime))
      = Ok (VStr ico)
    ∧ MimeType.icon icons' (BaseMime.__init__ (VStr mime)) = Ok (VStr ico).
Proof.
  intros Hm Hi Hne. exists (<[mime := ico]> icons).
  assert (IconsFile.get (<[mime := ico]> icons) mime = Some ico) as Hget
    by apply lookup_insert_eq.
  repeat split; try done.
  - by apply (table_line_fields ":").
  - unfold MimeType.genericIcon. rewrite name_init. simpl. by rewrite Hget.
  - rewrite icon_unfold, Hget. by destruct ico.
Qed.

Lemma icons_line_then_icon_witness :
  ∃ icons',
    IconsFile.parse_line ∅ ("text/plain" +:+ ":" +:+ "text-x-generic" +:+ Spec.nl)
    = Ok icons'
    ∧ IconsFile.get icons' "text/plain" = Some "text-x-generic"
    ∧ MimeType.genericIcon icons' (BaseMime.__init__ (VStr "text/plain"))
      = Ok (VStr "text-x-generic")
    ∧ MimeType.icon icons' (BaseMime.__init__ (VStr "text/plain"))
      = Ok (VStr "text-x-generic").
Proof.
  apply (icons_line_then_icon ∅ "text/plain" "text-x-generic");
    [reflexivity|reflexivity|discriminate].
Defined.

(** X5. A line of the icon file raises [ValueError] exactly when, its line
    feed apart, it does not hold exactly one colon; an icon name with a
    colon in it cannot be registered. *)
Theorem icons_line_raises_iff (icons : gmap string string) (line : string) :
  IconsFile.parse_line icons line = Raise ValueError ↔
  Str.count ":" (Spec.chomp line) ≠ 1.
Proof.
  change (IconsFile.parse_line icons line) with (Table.line ":" icons line).
  split.
  - intros Hr Hc. destruct (table_line_ok ":" icons line Hc) as (? & ? & _ & Ho).
    congruence.
  - apply table_line_raises.
Qed.

Lemma icons_line_raises_iff_witness :
  IconsFile.parse_line ∅ ("text/plain" +:+ Spec.nl) = Raise ValueError.
Proof.
  apply (icons_line_raises_iff ∅ ("text/plain" +:+ Spec.nl)).
  vm_compute. lia.
Defined.

(** X6. [aliasOf] of a type whose name is a string never raises: it
    returns [None] exactly when the alias table has no entry for the name,
    and the entry otherwise, without following it any further. *)
Theorem aliasOf_is_one_lookup (aliases : gmap string string) (n : string) :
  (MimeType.aliasOf aliases (BaseMime.__init__ (VStr n)) = Ok VNone ↔
   AliasesFile.get aliases n = None)
  ∧ (∀ c, MimeType.aliasOf aliases (BaseMime.__init__ (VStr n)) = Ok (VStr c) ↔
          AliasesFile.get aliases n = Some c)
  ∧ (∀ e, MimeType.aliasOf aliases (BaseMime.__init__ (VStr n)) ≠ Raise e).
Proof.
  unfold MimeType.aliasOf. rewrite name_init. simpl.
  destruct (AliasesFile.get aliases n) as [c|]; simpl; repeat split;
    try done; try congruence.
Qed.

Lemma aliasOf_is_one_lookup_witness :
  MimeType.aliasOf {[ "a/x" := "a/y"; "a/y" := "a/z" ]}
    (BaseMime.__init__ (VStr "a/x")) = Ok (VStr "a/y").
Proof.
  apply (aliasOf_is_one_lookup {[ "a/x" := "a/y"; "a/y" := "a/z" ]} "a/x").
  reflexivity.
Defined.

(** ** The files of the host *)

Section Files.
Import MimeType.

Lemma elem_of_getFiles_in h name dirs p :
  p ∈ getFiles_in h name dirs ↔
  ∃ dir, dir ∈ dirs
         ∧ p = Py.path_join (Py.path_join dir "mime") name
         ∧ is_Some (Host.files h !! p).
Proof.
  induction dirs as [|dir dirs IH]; simpl.
  { split; [by intros ?%elem_of_nil|]. by intros (? & ?%elem_of_nil & _). }
  case_bool_decide as He.
  - rewrite elem_of_cons, IH. split.
    + intros [->|(d & ? & ? & ?)].
      * exists dir. split; [left|done].
      * exists d. split; [by right|done].
    + intros (d & [->|?]%elem_of_cons & -> & ?); [by left|].
      right. by exists d.
  - rewrite IH. split.
    + intros (d & ? & ? & ?). exists d. split; [by right|done].
    + intros (d & [->|?]%elem_of_cons & -> & ?); [done|]. by exists d.
Qed.

Lemma getMimeFiles_in_bad_name h n dirs :
  dirs ≠ [] →
  Str.count "/" n ≠ 1 →
  getMimeFiles_in h (VStr n) dirs = Raise ValueError.
Proof.
  intros Hd Hc. destruct dirs as [|dir dirs]; [done|]. simpl.
  pose proof (split_length "/" n) as Hl.
  destruct (Str.split "/" n) as [|t [|s [|? ?]]]; try done.
  simpl in Hl. lia.
Qed.

Lemma getMimeFiles_in_ok h n type subtype dirs :
  Str.split "/" n = [type; subtype] →
  ∃ paths,
    getMimeFiles_in h (VStr n) dirs = Ok paths
    ∧ ∀ p, p ∈ paths ↔
        ∃ dir, dir ∈ dirs
          ∧ p = Py.path_join (Py.path_join (Py.path_join dir "mime") type)
                             (subtype +:+ ".xml")
          ∧ is_Some (Host.files h !! p).
Proof.
  intros Hs. induction dirs as [|dir dirs (paths & IH & Hp)]; simpl.
  { exists []. split; [done|]. intros p.
    split; [by intros ?%elem_of_nil|]. by intros (? & ?%elem_of_nil & _). }
  rewrite Hs, IH. simpl. eexists. split; [done|]. intros p.
  case_bool_decide as He.
  - rewrite elem_of_cons, Hp. split.
    + intros [->|(d & ? & ? & ?)].
      * eexists. split; [left|done].
      * exists d. split; [by right|done].
    + intros (d & [->|?]%elem_of_cons & -> & ?); [by left|].
      right. by exists d.
  - rewrite Hp. split.
    + intros (d & ? & ? & ?). exists d. split; [by right|done].
    + intros (d & [->|?]%elem_of_cons & -> & ?); [done|]. by exists d.
Qed.

End Files.

(** X7. [getFiles] returns exactly the paths "dir/mime/name", for the
    directories of [XDG_DATA_DIRS], that exist on the host. *)
Theorem getFiles_existing_candidates (h : Host.t) (name p : string) :
  p ∈ MimeType.getFiles h name ↔
  ∃ dir, dir ∈ Host.XDG_DATA_DIRS h
         ∧ p = Py.path_join (Py.path_join dir "mime") name
         ∧ is_Some (Host.files h !! p).
Proof. apply elem_of_getFiles_in. Qed.

Lemma getFiles_existing_candidates_witness :
  "/usr/share/mime/text/plain.xml"
  ∈ MimeType.getFiles Spec.plain_host "text/plain.xml".
Proof.
  apply (getFiles_existing_candidates Spec.plain_host "text/plain.xml").
  exists "/usr/share". split; [right; left|]. split; [reflexivity|].
  vm_compute. eauto.
Defined.

(** X8. With at least one directory to search, [getMimeFiles] raises
    [ValueError] exactly for the type names that do not hold exactly one
    "/"; with no directory it returns the empty list whatever the name. *)
Theorem getMimeFiles_raises_iff (h : Host.t) (n : string) :
  (Host.XDG_DATA_DIRS h ≠ [] →
   (MimeType.getMimeFiles h (VStr n) = Raise ValueError ↔
    Str.count "/" n ≠ 1))
  ∧ (Host.XDG_DATA_DIRS h = [] → MimeType.getMimeFiles h (VStr n) = Ok []).
Proof.
  unfold MimeType.getMimeFiles. split.
  - intros Hd. split; [|by apply getMimeFiles_in_bad_name].
    intros Hr Hc.
    pose proof (split_length "/" n) as Hl. rewrite Hc in Hl.
    destruct (Str.split "/" n) as [|t [|s [|? ?]]] eqn:Hs; try done.
    destruct (getMimeFiles_in_ok h n t s (Host.XDG_DATA_DIRS h) Hs)
      as (? & Ho & _).
    congruence.
  - by intros ->.
Qed.

Lemma getMimeFiles_raises_iff_witness :
  MimeType.getMimeFiles Spec.plain_host (VStr "textplain") = Raise ValueError.
Proof.
  apply (getMimeFiles_raises_iff Spec.plain_host "textplain");
    [discriminate|simpl; lia].
Defined.

(** X9. For a type name "type/subtype" [getMimeFiles] returns exactly the
    paths "dir/mime/type/subtype.xml", for the directories of
    [XDG_DATA_DIRS], that exist on the host. *)
Theorem getMimeFiles_existing_candidates (h : Host.t) (n type subtype : string) :
  Str.split "/" n = [type; subtype] →
  ∃ paths,
    MimeType.getMimeFiles h (VStr n) = Ok paths
    ∧ ∀ p, p ∈ paths ↔
        ∃ dir, dir ∈ Host.XDG_DATA_DIRS h
          ∧ p = Py.path_join (Py.path_join (Py.path_join dir "mime") type)
                             (subtype +:+ ".xml")
          ∧ is_Some (Host.files h !! p).
Proof. apply getMimeFiles_in_ok. Qed.

Lemma getMimeFiles_existing_candidates_witness :
  ∃ paths,
    MimeType.getMimeFiles Spec.plain_host (VStr "text/plain") = Ok paths
    ∧ ∀ p, p ∈ paths ↔
        ∃ dir, dir ∈ Host.XDG_DATA_DIRS Spec.plain_host
          ∧ p = Py.path_join (Py.path_join (Py.path_join dir "mime") "text")
                             ("plain" +:+ ".xml")
          ∧ is_Some (Host.files Spec.plain_host !! p).
Proof.
  apply (getMimeFiles_existing_candidates Spec.plain_host "text/plain").
  reflexivity.
Defined.

(** ** Loading glob files *)

Section Loading.
Import GlobsFile.

Lemma glob_parse_lines_app self ls1 ls2 :
  parse_lines self (ls1 ++ ls2) =
  match parse_lines self ls1 with
  | (self', Ok _) => parse_lines self' ls2
  | (self', Raise e) => (self', Raise e)
  end.
Proof.
  revert self. induction ls1 as [|l ls1 IH]; intros self; [done|].
  simpl. destruct (parse_line self l); [apply IH|done].
Qed.

Lemma parse_lines_appends ls : ∀ self,
  ∃ added,
    matches (parse_lines self ls).1 = matches self ++ added
    ∧ ((parse_lines self ls).2 = Ok tt →
       length added = length (List.filter Globs.is_rule_line ls)).
Proof.
  induction ls as [|l ls IH]; intros self; simpl.
  { exists []. by rewrite app_nil_r. }
  unfold Globs.is_rule_line at 1.
  destruct (Str.startswith "#" l) eqn:Hc; simpl.
  - rewrite parse_line_comment by done. apply IH.
  - destruct (parse_line self l) as [self'|e] eqn:Hp; simpl.
    + destruct (parse_line_matches _ _ _ Hc Hp) as [r Hr].
      destruct (IH self') as (added & Hm & Hl).
      exists (r :: added). rewrite Hm, Hr, <- app_assoc. split; [done|].
      intros ?. simpl. f_equal. auto.
    + exists []. by rewrite app_nil_r.
Qed.

Lemma parse_lines_good ls : ∀ self,
  existsb Spec.bad_line ls = false → (parse_lines self ls).2 = Ok tt.
Proof. intros self H. by rewrite parse_lines_result, H. Qed.

End Loading.

(** X10. [parse] only appends to the rules: the rules loaded before stay in
    front, in their order, and when the file loads, one rule is added for
    each of its lines that is no comment. *)
Theorem parse_appends_one_rule_per_line (self : GlobsFile.t) (content : string) :
  ∃ added,
    GlobsFile.matches (GlobsFile.parse self content).1
    = GlobsFile.matches self ++ added
    ∧ ((GlobsFile.parse self content).2 = Ok tt →
       length added
       = length (List.filter (λ l, negb (Str.startswith "#" l))
                             (Str.lines content))).
Proof. apply parse_lines_appends. Qed.

Lemma parse_appends_one_rule_per_line_witness :
  ∃ added,
    GlobsFile.matches
      (GlobsFile.parse (Spec.loaded Spec.makefile_only)
         ("# comment" +:+ Spec.nl +:+ Spec.gz_then_tar_gz)).1
    = GlobsFile.matches (Spec.loaded Spec.makefile_only) ++ added
    ∧ length added = 2.
Proof.
  destruct (parse_appends_one_rule_per_line (Spec.loaded Spec.makefile_only)
              ("# comment" +:+ Spec.nl +:+ Spec.gz_then_tar_gz))
    as (added & Hm & Hl).
  exists added. split; [exact Hm|]. apply Hl. reflexivity.
Defined.

(** X11. A load that fails is not undone: when the first line with a bad
    weight comes after lines that are good, [parse] raises [ValueError] and
    leaves the index as those good lines have made it. *)
Theorem parse_failure_keeps_earlier_lines (self : GlobsFile.t)
    (pre post : list string) (bad : string) :
  existsb Spec.bad_line pre = false →
  Spec.bad_line bad = true →
  GlobsFile.parse_lines self (pre ++ bad :: post)
  = ((GlobsFile.parse_lines self pre).1, Raise ValueError).
Proof.
  intros Hpre Hbad. rewrite glob_parse_lines_app.
  pose proof (parse_lines_good pre self Hpre) as Hok.
  destruct (GlobsFile.parse_lines self pre) as [self' r]. simpl in *. subst r.
  simpl. by rewrite parse_line_bad.
Qed.

Lemma parse_failure_keeps_earlier_lines_witness :
  GlobsFile.parse GlobsFile.__init__ (Spec.makefile_only +:+ Spec.no_weight)
  = (Spec.loaded Spec.makefile_only, Raise ValueError).
Proof.
  apply (parse_failure_keeps_earlier_lines GlobsFile.__init__
           (Str.lines Spec.makefile_only) [] (Spec.no_weight));
    reflexivity.
Defined.

(** X12. Loading glob files one after the other is parsing all their lines
    in a row: the index depends on the files only through the sequence of
    their lines, and the first bad line stops the whole load. *)
Theorem load_is_parse_of_all_lines (self : GlobsFile.t) (files : list string) :
  GlobsFile.load self files =
  match GlobsFile.parse_lines self (concat (Str.lines <$> files)) with
  | (self', Ok _) => Ok self'
  | (_, Raise e) => Raise e
  end.
Proof.
  revert self. induction files as [|f files IH]; intros self; [done|].
  simpl. rewrite glob_parse_lines_app. unfold GlobsFile.parse.
  destruct (GlobsFile.parse_lines self (Str.lines f)) as [self' [[]|e]];
    [apply IH|done].
Qed.

(** ** When [match] raises *)

(** In every index that parsing can build, the glob of every literal rule
    is a name of the literal index. *)
Lemma literal_rules_are_indexed self :
  Spec.reached self →
  ∀ r, r ∈ GlobsFile.matches self →
    GlobsFile.is_literal (GlobsFile.glob r) = true →
    is_Some (GlobsFile.literals self !! GlobsFile.glob r).
Proof.
  induction 1 as [|self line self' _ IH Hp]; intros r0.
  { by intros ?%elem_of_nil. }
  destruct (Str.startswith "#" line) eqn:Hc.
  { unfold GlobsFile.parse_line in Hp. rewrite Hc in Hp.
    injection Hp as <-. apply IH. }
  destruct (parse_line_matches _ _ _ Hc Hp) as [r Hm].
  assert (GlobsFile.literals self' =
          if GlobsFile.is_literal (GlobsFile.glob r)
          then <[GlobsFile.glob r := length (GlobsFile.matches self')]>
                 (GlobsFile.literals self)
          else GlobsFile.literals self) as Hl.
  { unfold GlobsFile.parse_line in Hp. rewrite Hc in Hp.
    repeat (destruct (Str.partition _ _) as [[? ?] ?]).
    destruct (Str.int _); [|discriminate].
    injection Hp as <-. simpl in *.
    apply app_inv_head in Hm. by injection Hm as <-. }
  rewrite Hl, Hm.
  intros [Hin| ->%list_elem_of_singleton]%elem_of_app Hlit.
  - destruct (GlobsFile.is_literal (GlobsFile.glob r)); [|by apply IH].
    destruct (decide (GlobsFile.glob r = GlobsFile.glob r0)) as [->|Hne].
    + rewrite lookup_insert_eq. eauto.
    + rewrite lookup_insert_ne by done. by apply IH.
  - rewrite Hlit, lookup_insert_eq. eauto.
Qed.

Lemma match_scan_path self name :
  GlobsFile.literals self !! name = None →
  GlobsFile.match_ self name =
  if Spec.all_compile (GlobsFile.matches self)
  then match Spec.kept name (GlobsFile.matches self) with
       | [] => Ok EmptyString
       | first :: rest => Ok (GlobsFile.max_by_key first rest).1.2
       end
  else Raise ReError.
Proof.
  intros Hl. unfold GlobsFile.match_. rewrite Hl, scan_kept.
  destruct (Spec.all_compile _); [|done]. simpl.
  destruct (Spec.kept _ _) as [|first rest]; [done|].
  by destruct (GlobsFile.max_by_key first rest) as [[? ?] ?].
Qed.

(** X13. In every index that parsing can build, [match] raises
    [IndexError] exactly for one name, if any: the glob of the rule loaded
    last, when that glob is literal. It raises [re.error] exactly for the
    names outside the literal index when a glob of the index cannot be
    compiled. It raises nothing else. *)
Theorem match_raises_iff_literal_loaded_last (self : GlobsFile.t) (name : string) :
  Spec.reached self →
  (GlobsFile.match_ self name = Raise IndexError ↔
   ∃ pre r, GlobsFile.matches self = pre ++ [r]
            ∧ GlobsFile.glob r = name
            ∧ GlobsFile.is_literal name = true)
  ∧ (GlobsFile.match_ self name = Raise ReError ↔
     GlobsFile.literals self !! name = None
     ∧ Spec.all_compile (GlobsFile.matches self) = false)
  ∧ (∀ e, GlobsFile.match_ self name = Raise e →
          e = IndexError ∨ e = ReError).
Proof.
  intros Hreach. split; [split|split; [split|]].
  - destruct (GlobsFile.literals self !! name) as [i|] eqn:Hi.
    + unfold GlobsFile.match_. rewrite Hi.
      destruct (literal_index_points_past_rule _ Hreach _ _ Hi)
        as (Hlit & pos & r & -> & Hpos & Hg & _).
      destruct (GlobsFile.matches self !! S pos) eqn:Hnext; [done|]. intros _.
      apply lookup_ge_None in Hnext. pose proof (lookup_lt_Some _ _ _ Hpos) as Hlt.
      destruct (GlobsFile.matches self) as [|x l _] eqn:Hm using rev_ind;
        [simpl in Hlt; lia|].
      rewrite length_app in Hnext, Hlt. simpl in Hnext, Hlt.
      assert (pos = length l) as -> by lia.
      rewrite list_lookup_middle in Hpos by done. injection Hpos as ->.
      by exists l, r.
    + rewrite (match_scan_path _ _ Hi).
      destruct (Spec.all_compile _); [|done].
      by destruct (Spec.kept _ _).
  - intros (pre & r & Hm & Hg & Hlit).
    assert (is_Some (GlobsFile.literals self !! name)) as [i Hi].
    { rewrite <- Hg. apply literal_rules_are_indexed; [done| |by rewrite Hg].
      rewrite Hm. apply elem_of_app. right. by left. }
    destruct (literal_index_points_past_rule _ Hreach _ _ Hi)
      as (_ & pos & r0 & -> & Hpos & _ & Hlater).
    unfold GlobsFile.match_. rewrite Hi.
    assert (pos = length pre) as ->.
    { pose proof (lookup_lt_Some _ _ _ Hpos) as Hlt.
      rewrite Hm, length_app in Hlt. simpl in Hlt.
      destruct (decide (pos = length pre)) as [|Hne]; [done|].
      exfalso. apply (Hlater (length pre) r); [lia| |done].
      rewrite Hm. by apply list_lookup_middle. }
    rewrite (lookup_ge_None_2 (GlobsFile.matches self) (S (length pre))); [done|].
    rewrite Hm, length_app. simpl. lia.
  - destruct (GlobsFile.literals self !! name) as [i|] eqn:Hi.
    + unfold GlobsFile.match_. rewrite Hi.
      by destruct (GlobsFile.matches self !! i).
    + rewrite (match_scan_path _ _ Hi).
      destruct (Spec.all_compile _); [|done].
      by destruct (Spec.kept _ _).
  - intros [Hl Hc]. by rewrite (match_scan_path _ _ Hl), Hc.
  - intros e. destruct (GlobsFile.literals self !! name) as [i|] eqn:Hi.
    + unfold GlobsFile.match_. rewrite Hi.
      destruct (GlobsFile.matches self !! i); [done|].
      intros [= <-]. by left.
    + rewrite (match_scan_path _ _ Hi).
      destruct (Spec.all_compile _); [by destruct (Spec.kept _ _)|].
      intros [= <-]. by right.
Qed.

Lemma match_raises_iff_literal_loaded_last_witness :
  GlobsFile.match_ (Spec.loaded Spec.makefile_only) "Makefile" = Raise IndexError
  ∧ GlobsFile.match_ (Spec.loaded Spec.star_then_reversed) "x" = Raise ReError.
Proof.
  split.
  - apply (match_raises_iff_literal_loaded_last (Spec.loaded Spec.makefile_only)
             "Makefile").
    + apply (Spec.reached_line GlobsFile.__init__ Spec.makefile_only);
        [apply Spec.reached_init|reflexivity].
    + exists [], (GlobsFile.Rule 50 "text/x-makefile" "Makefile" []).
      repeat split; reflexivity.
  - apply (match_raises_iff_literal_loaded_last
             (Spec.loaded Spec.star_then_reversed) "x").
    + apply (Spec.reached_line (Spec.loaded ("50:a/star:*" +:+ Spec.nl))
               ("50:a/rev:[z-a]" +:+ Spec.nl)); [|reflexivity].
      apply (Spec.reached_line GlobsFile.__init__ ("50:a/star:*" +:+ Spec.nl));
        [apply Spec.reached_init|reflexivity].
    + split; reflexivity.
Defined.

(** ** The fields of a glob line *)

Lemma single_app (c : ascii) (t : string) :
  String c EmptyString +:+ t = String c t.
Proof. done. Qed.

Lemma int_of_comment s : Str.int (String "#" s) = None.
Proof.
  unfold Str.int, Str.strip. simpl.
  destruct (Str.rstrip s); reflexivity.
Qed.

Lemma int_not_comment wt w rest :
  Str.int wt = Some w → Str.startswith "#" (wt +:+ rest) = false.
Proof.
  destruct wt as [|a wt]; [done|]. simpl.
  destruct (Ascii.eqb a "#") eqn:Ha; [|done].
  apply Ascii.eqb_eq in Ha as ->. by rewrite int_of_comment.
Qed.

(** X14. The fields of a glob line are cut at the first colons: a line
    "weight:mime:glob" becomes the rule of these fields with no flag, and
    in a line "weight:mime:glob:flags:rest" the flags are the fourth field
    cut at its commas and everything after the fourth colon is ignored. *)
Theorem parse_line_recovers_fields (self : GlobsFile.t)
    (wt mime glob : string) (w : Z) :
  Str.int wt = Some w →
  Str.contains ":" wt = false →
  Str.contains ":" mime = false →
  Str.contains ":" glob = false →
  (∃ self',
     GlobsFile.parse_line self
       ((wt +:+ ":" +:+ mime +:+ ":" +:+ glob) +:+ Spec.nl) = Ok self'
     ∧ GlobsFile.matches self'
       = GlobsFile.matches self ++ [GlobsFile.Rule w mime glob []])
  ∧ (∀ ft rest, Str.contains ":" ft = false →
     ∃ self',
       GlobsFile.parse_line self
         ((wt +:+ ":" +:+ mime +:+ ":" +:+ glob +:+ ":" +:+ ft +:+ ":" +:+ rest)
          +:+ Spec.nl) = Ok self'
       ∧ GlobsFile.matches self'
         = GlobsFile.matches self
           ++ [GlobsFile.Rule w mime glob
                 (if Str.truthy ft then Str.split "," ft else [])]).
Proof.
  intros Hw Hcw Hcm Hcg. split.
  - unfold GlobsFile.parse_line.
    match goal with
    | |- context [Str.startswith "#" ?l] =>
        replace (Str.startswith "#" l) with false
          by (rewrite app_assoc_string; symmetry; by eapply int_not_comment)
    end.
    change (if Str.endswith "010" ?l then Str.drop_last ?l else ?l)
      with (Spec.chomp l).
    rewrite chomp_app_nl, !single_app.
    rewrite (partition_app ":" wt) by done.
    rewrite (partition_app ":" mime) by done.
    rewrite (partition_no_sep ":" glob) by done. simpl.
    rewrite Hw. eexists. split; [done|]. done.
  - intros ft rest Hcf. unfold GlobsFile.parse_line.
    match goal with
    | |- context [Str.startswith "#" ?l] =>
        replace (Str.startswith "#" l) with false
          by (rewrite app_assoc_string; symmetry; by eapply int_not_comment)
    end.
    change (if Str.endswith "010" ?l then Str.drop_last ?l else ?l)
      with (Spec.chomp l).
    rewrite chomp_app_nl, !single_app.
    rewrite (partition_app ":" wt) by done.
    rewrite (partition_app ":" mime) by done.
    rewrite (partition_app ":" glob) by done.
    rewrite (partition_app ":" ft) by done.
    rewrite Hw. eexists. split; [done|]. done.
Qed.

Lemma parse_line_recovers_fields_witness :
  ∃ self',
    GlobsFile.parse_line GlobsFile.__init__
      (("50" +:+ ":" +:+ "text/x-c" +:+ ":" +:+ "*.C" +:+ ":" +:+ "cs,x"
        +:+ ":" +:+ "a:b") +:+ Spec.nl) = Ok self'
    ∧ GlobsFile.matches self'
      = GlobsFile.matches GlobsFile.__init__
        ++ [GlobsFile.Rule 50 "text/x-c" "*.C"
              (if Str.truthy "cs,x" then Str.split "," "cs,x" else [])].
Proof.
  apply (parse_line_recovers_fields GlobsFile.__init__ "50" "text/x-c" "*.C" 50);
    reflexivity.
Defined.

(** ** Literal globs in the scan *)

Section LiteralGlobs.
Import Fnmatch.

Lemma is_literal_cons a s :
  GlobsFile.is_literal (String a s) = Globs.plain a && GlobsFile.is_literal s.
Proof.
  unfold GlobsFile.is_literal, Globs.plain. simpl.
  destruct (Ascii.eqb a "*"), (Ascii.eqb a "?"), (Ascii.eqb a "[");
    simpl; try done;
    repeat match goal with
           | |- context [Str.contains ?c s] => destruct (Str.contains c s)
           end; done.
Qed.

Lemma compile_literal s :
  GlobsFile.is_literal s = true →
  compile s = Ok (TLit <$> list_ascii_of_string s).
Proof.
  unfold compile. induction s as [|a s IH]; [done|].
  rewrite is_literal_cons. intros [Ha Hs]%andb_true_iff.
  simpl. unfold Globs.plain in Ha.
  destruct (Ascii.eqb a "*"); [done|]. destruct (Ascii.eqb a "?"); [done|].
  destruct (Ascii.eqb a "["); [done|]. by rewrite IH.
Qed.

Lemma matches_literal cs : ∀ s, matches (TLit <$> cs) s = true ↔ s = cs.
Proof.
  induction cs as [|a cs IH]; intros [|b s]; simpl; try done.
  rewrite andb_true_iff, Ascii.eqb_eq, IH. split.
  - by intros [-> ->].
  - by intros [= -> ->].
Qed.

(** A glob without "*", "?" and "[" compiles, and matches its own text and
    no other. *)
Lemma glob_matches_literal name glob :
  GlobsFile.is_literal glob = true →
  Spec.compiles glob = true
  ∧ (Spec.glob_matches name glob = true ↔ name = glob).
Proof.
  intros Hl. unfold Spec.compiles, Spec.glob_matches, fnmatch.
  rewrite compile_literal by done. split; [done|]. simpl.
  rewrite matches_literal.
  split; [|by intros ->].
  intros H. rewrite <- (string_of_list_ascii_of_string name), H.
  apply string_of_list_ascii_of_string.
Qed.

End LiteralGlobs.

(** X15. The scan keeps a rule whose glob is literal for the name that is
    the glob and, unless the rule has the "cs" flag, for every name whose
    lower-case form is the glob; for no other name. *)
Theorem scan_of_literal_rule (name : string) (r : GlobsFile.rule) :
  GlobsFile.is_literal (GlobsFile.glob r) = true →
  GlobsFile.scan name [r] = Ok [Spec.entry r] ↔
  name = GlobsFile.glob r
  ∨ (("cs" ∉ GlobsFile.flags r) ∧ Str.lower name = GlobsFile.glob r).
Proof.
  intros Hl. rewrite scan_kept.
  destruct (glob_matches_literal name _ Hl) as [Hc H1].
  destruct (glob_matches_literal (Str.lower name) _ Hl) as [_ H2].
  unfold Spec.all_compile. simpl. rewrite Hc. simpl.
  unfold Spec.rule_matches.
  destruct (Spec.glob_matches name (GlobsFile.glob r)); simpl.
  { split; [|done]. intros _. left. by apply H1. }
  case_bool_decide as Hcs; simpl.
  - split; [done|]. intros [Hn|[? _]]; [|done].
    apply H1 in Hn. discriminate.
  - destruct (Spec.glob_matches (Str.lower name) (GlobsFile.glob r)).
    + split; [|done]. intros _. right. split; [done|]. by apply H2.
    + split; [done|]. intros [Hn|[_ Hn]].
      * apply H1 in Hn. discriminate.
      * apply H2 in Hn. discriminate.
Qed.

Lemma scan_of_literal_rule_witness :
  GlobsFile.scan "MAKEFILE" [GlobsFile.Rule 50 "text/x-makefile" "makefile" []]
  = Ok [Spec.entry (GlobsFile.Rule 50 "text/x-makefile" "makefile" [])].
Proof.
  apply (scan_of_literal_rule "MAKEFILE"
           (GlobsFile.Rule 50 "text/x-makefile" "makefile" [])).
  - reflexivity.
  - right. split; [apply not_elem_of_nil|reflexivity].
Defined.

(** ** The bodies of [aliases] and [comment] on an instance with the
    attributes they expect *)

Section Bodies.
Import BaseMime MimeType.

Lemma getattr_insert (self : obj) a v : getattr (<[a := v]> self) a = Ok v.
Proof. unfold getattr. by rewrite lookup_insert_eq. Qed.

Lemma getattr_insert_ne (self : obj) a b v :
  a ≠ b → getattr (<[a := v]> self) b = getattr self b.
Proof. intros. unfold getattr. by rewrite lookup_insert_ne. Qed.

Lemma getattr_instance (self : obj) a v : self !! a = Some v → getattr self a = Ok v.
Proof. unfold getattr. by intros ->. Qed.

(** *** [aliases] *)

Lemma aliases_nodes_list types : ∀ (self : obj) l,
  aliases_nodes types (<["_aliases" := VList l]> self)
  = (<["_aliases" := VList (Aliases.add_all l types)]> self, Ok tt).
Proof.
  induction types as [|a types IH]; intros self l; [done|].
  simpl. unfold mbind, M_bind, load, call, lift, store.
  rewrite !getattr_insert. simpl.
  case_bool_decide; simpl.
  - apply IH.
  - rewrite getattr_insert. simpl. rewrite insert_insert_eq. apply IH.
Qed.

Lemma aliases_files_list paths : ∀ docs (self : obj) l h,
  Forall2 (λ p doc, Host.files h !! p = Some (Host.Xml doc)) paths docs →
  aliases_files h paths (<["_aliases" := VList l]> self)
  = (<["_aliases" :=
         VList (Aliases.add_all l (concat (Host.alias_types <$> docs)))]> self,
     Ok tt).
Proof.
  induction paths as [|p paths IH]; intros docs self l h Hd.
  { apply Forall2_nil_inv_l in Hd as ->. done. }
  apply Forall2_cons_inv_l in Hd as (doc & docs' & Hp & Hd & ->).
  simpl. unfold mbind, M_bind, lift at 1, Host.minidom_parse.
  rewrite Hp, aliases_nodes_list, (IH _ _ _ _ Hd).
  unfold Aliases.add_all. by rewrite fold_left_app.
Qed.

Lemma add_all_elem types : ∀ l a,
  a ∈ Aliases.add_all l types ↔ a ∈ l ∨ a ∈ types.
Proof.
  unfold Aliases.add_all.
  induction types as [|b types IH]; intros l a; simpl.
  { rewrite elem_of_nil. tauto. }
  rewrite IH, elem_of_cons. case_bool_decide as Hb.
  - split; [tauto|]. intros [?|[->|?]]; tauto.
  - rewrite elem_of_app, list_elem_of_singleton. tauto.
Qed.

Lemma add_all_NoDup types : ∀ l, NoDup l → NoDup (Aliases.add_all l types).
Proof.
  unfold Aliases.add_all.
  induction types as [|b types IH]; intros l Hl; [done|]. simpl.
  apply IH. case_bool_decide as Hb; [done|].
  apply NoDup_app. split; [done|]. split.
  - by intros x Hx ->%list_elem_of_singleton.
  - apply NoDup_singleton.
Qed.

(** *** [comment] *)

Lemma join_text parts :
  Forall is_Some parts →
  Py.join parts
  = Ok (fold_right (λ p acc, default EmptyString p +:+ acc) EmptyString parts).
Proof.
  induction 1 as [|p parts [s ->] _ IH]; [done|].
  simpl. by rewrite IH.
Qed.

Lemma comment_nodes_dict lang nodes : ∀ (self : obj) d,
  (∀ c, Comments.first_in lang nodes = Some c →
        Forall is_Some (Host.childNodes c)) →
  comment_nodes lang nodes (<["_comment" := VDict d]> self)
  = (<["_comment" :=
         VDict match Comments.first_in lang nodes with
               | Some c => <[lang := Comments.text c]> d
               | None => d
               end]> self, Ok tt).
Proof.
  induction nodes as [|c nodes IH]; intros self d Hn; [done|].
  unfold Comments.first_in in *. simpl in *.
  change (if Str.truthy (Host.lang c) then Host.lang c else "en")
    with (Comments.nslang c).
  case_bool_decide as Hl; [|by apply IH].
  unfold mbind, M_bind, load, call, lift, store.
  rewrite (join_text _ (Hn c eq_refl)), getattr_insert. simpl.
  by rewrite insert_insert_eq.
Qed.

(** The dictionary after the documents [docs]: each document with an
    element in the language overwrites the entry. *)
Lemma comment_files_dict lang paths : ∀ docs (self : obj) d h,
  Forall2 (λ p doc, Host.files h !! p = Some (Host.Xml doc)) paths docs →
  Forall (Comments.readable lang) docs →
  comment_files h lang paths (<["_comment" := VDict d]> self)
  = (<["_comment" :=
         VDict (fold_left (λ d doc, match Comments.of_doc lang doc with
                                    | Some t => <[lang := t]> d
                                    | None => d
                                    end) docs d)]> self, Ok tt).
Proof.
  induction paths as [|p paths IH]; intros docs self d h Hd Ht.
  { apply Forall2_nil_inv_l in Hd as ->. done. }
  apply Forall2_cons_inv_l in Hd as (doc & docs' & Hp & Hd & ->).
  apply Forall_cons in Ht as [Hdoc Ht].
  simpl. unfold mbind, M_bind, lift at 1, Host.minidom_parse.
  rewrite Hp, (comment_nodes_dict _ _ _ _ Hdoc), (IH _ _ _ _ Hd Ht).
  unfold Comments.of_doc. by destruct (Comments.first_in _ _).
Qed.

Lemma fold_dict_none lang docs : ∀ (d : gmap string string),
  Forall (λ doc, Comments.of_doc lang doc = None) docs →
  fold_left (λ d doc, match Comments.of_doc lang doc with
                      | Some t => <[lang := t]> d
                      | None => d
                      end) docs d = d.
Proof.
  induction docs as [|doc docs IH]; intros d Hn; [done|].
  apply Forall_cons in Hn as [Hdoc Hn]. simpl. rewrite Hdoc. by apply IH.
Qed.

Lemma fold_dict_last lang pre doc post t (d : gmap string string) :
  Comments.of_doc lang doc = Some t →
  Forall (λ doc, Comments.of_doc lang doc = None) post →
  fold_left (λ d doc, match Comments.of_doc lang doc with
                      | Some t => <[lang := t]> d
                      | None => d
                      end) (pre ++ doc :: post) d !! lang = Some t.
Proof.
  intros Ht Hn. rewrite fold_left_app. simpl.
  rewrite Ht, fold_dict_none by done. apply lookup_insert_eq.
Qed.

End Bodies.

Lemma elem_of_concat {A} (x : A) (ls : list (list A)) :
  x ∈ concat ls ↔ ∃ l, x ∈ l ∧ l ∈ ls.
Proof.
  induction ls as [|l ls IH]; simpl.
  - split; [by intros ?%elem_of_nil|]. by intros (? & _ & ?%elem_of_nil).
  - rewrite elem_of_app, IH. split.
    + intros [?|(l' & ? & ?)]; [exists l|exists l']; split; try done;
        [left|by right].
    + intros (l' & ? & [->|?]%elem_of_cons); [by left|]. right. by exists l'.
Qed.

(** X16. On an instance whose [_aliases] is the empty list, [aliases]
    returns [None] when the type has no document; otherwise, the documents
    being XML, it returns the [type] attributes of all their [alias]
    elements, each one once, in a list that it also leaves in [_aliases]. *)
Theorem aliases_collects_each_once (h : Host.t) (self : BaseMime.obj)
    (n : string) (paths : list string) (docs : list Host.document) :
  self !! "_aliases" = Some (VList []) →
  self !! "_BaseMime__name" = Some (VStr n) →
  MimeType.getMimeFiles h (VStr n) = Ok paths →
  Forall2 (λ p doc, Host.files h !! p = Some (Host.Xml doc)) paths docs →
  (paths = [] → MimeType.aliases h self = (self, Ok VNone))
  ∧ (paths ≠ [] →
     ∃ l, MimeType.aliases h self
          = (<["_aliases" := VList l]> self, Ok (VList l))
          ∧ NoDup l
          ∧ ∀ a, a ∈ l ↔ ∃ doc, doc ∈ docs ∧ a ∈ Host.alias_types doc).
Proof.
  intros Ha Hn Hp Hd.
  assert (MimeType.aliases h self =
          match paths with
          | [] => (self, Ok VNone)
          | _ => (<["_aliases" :=
                      VList (Aliases.add_all []
                               (concat (Host.alias_types <$> docs)))]> self,
                  Ok (VList (Aliases.add_all []
                               (concat (Host.alias_types <$> docs)))))
          end) as Heq.
  { unfold MimeType.aliases, MimeType.load, MimeType.call, MimeType.lift.
    unfold mbind, MimeType.M_bind, BaseMime.name.
    rewrite (getattr_instance _ _ _ Ha). simpl.
    rewrite (getattr_instance _ _ _ Hn). simpl. rewrite Hp. simpl.
    destruct paths as [|p paths]; [done|].
    rewrite <- (insert_id self "_aliases" (VList [])) at 1 by done.
    rewrite (aliases_files_list _ _ _ _ _ Hd).
    by rewrite getattr_insert. }
  split.
  - by intros ->.
  - intros Hne. destruct paths as [|p paths]; [done|]. eexists.
    split; [exact Heq|]. split.
    + apply add_all_NoDup, NoDup_nil_2.
    + intros a. rewrite add_all_elem, elem_of_nil.
      rewrite elem_of_concat. split.
      * intros [[]|(l & Hal & (doc & -> & ?)%list_elem_of_fmap)]. eauto.
      * intros (doc & ? & ?). right. exists (Host.alias_types doc).
        split; [done|]. apply list_elem_of_fmap. eauto.
Qed.

Lemma aliases_collects_each_once_witness :
  ∃ l, MimeType.aliases Spec.plain_host (Spec.prepared "text/plain")
       = (<["_aliases" := VList l]> (Spec.prepared "text/plain"), Ok (VList l))
       ∧ NoDup l
       ∧ ∀ a, a ∈ l ↔ ∃ doc, doc ∈ [Spec.plain_doc] ∧ a ∈ Host.alias_types doc.
Proof.
  apply (aliases_collects_each_once Spec.plain_host (Spec.prepared "text/plain")
           "text/plain" ["/usr/share/mime/text/plain.xml"] [Spec.plain_doc]).
  - reflexivity.
  - reflexivity.
  - reflexivity.
  - repeat constructor.
  - discriminate.
Defined.

(** X17. On an instance whose [_aliases] is a list that is not empty,
    [aliases] returns that list and reads nothing from the host. *)
Theorem aliases_answers_from_the_list (h : Host.t) (self : BaseMime.obj)
    (l : list string) :
  self !! "_aliases" = Some (VList l) →
  l ≠ [] →
  MimeType.aliases h self = (self, Ok (VList l)).
Proof.
  intros Ha Hl.
  unfold MimeType.aliases, MimeType.load, MimeType.call.
  unfold mbind, MimeType.M_bind.
  rewrite (getattr_instance _ _ _ Ha). simpl.
  destruct l; [done|]. simpl. by rewrite (getattr_instance _ _ _ Ha).
Qed.

Lemma aliases_answers_from_the_list_witness :
  MimeType.aliases Spec.plain_host
    (<["_aliases" := VList ["text/x-old"]]> (Spec.prepared "text/plain"))
  = (<["_aliases" := VList ["text/x-old"]]> (Spec.prepared "text/plain"),
     Ok (VList ["text/x-old"])).
Proof.
  apply (aliases_answers_from_the_list Spec.plain_host _ ["text/x-old"]);
    [reflexivity|discriminate].
Defined.

Lemma none_readable lang doc :
  Comments.of_doc lang doc = None → Comments.readable lang doc.
Proof.
  unfold Comments.of_doc, Comments.readable. intros Hn c Hc.
  by rewrite Hc in Hn.
Qed.

Lemma comment_on_dictionary (h : Host.t) (self : BaseMime.obj)
    (d : gmap string string) (lang n : string)
    (paths : list string) (docs : list Host.document) :
  self !! "_comment" = Some (VDict d) →
  d !! lang = None →
  self !! "_BaseMime__name" = Some (VStr n) →
  MimeType.getMimeFiles h (VStr n) = Ok paths →
  Forall2 (λ p doc, Host.files h !! p = Some (Host.Xml doc)) paths docs →
  Forall (Comments.readable lang) docs →
  MimeType.comment h lang self =
  match paths with
  | [] => (self, Ok VNone)
  | _ =>
      let d' := fold_left (λ d doc, match Comments.of_doc lang doc with
                                    | Some t => <[lang := t]> d
                                    | None => d
                                    end) docs d in
      (<["_comment" := VDict d']> self,
       match d' !! lang with
       | Some t => Ok (VStr t)
       | None => Raise KeyError
       end)
  end.
Proof.
  intros Hc Hl Hn Hp Hd Ht.
  unfold MimeType.comment, MimeType.load, MimeType.call, MimeType.lift.
  unfold mbind, MimeType.M_bind, BaseMime.name.
  rewrite (getattr_instance _ _ _ Hc). simpl.
  rewrite bool_decide_eq_false_2 by (rewrite Hl; by intros [? ?]). simpl.
  rewrite (getattr_instance _ _ _ Hn). simpl. rewrite Hp. simpl.
  destruct paths as [|p paths]; [done|].
  rewrite <- (insert_id self "_comment" (VDict d)) at 1 by done.
  rewrite (comment_files_dict _ _ _ _ _ _ Hd Ht).
  rewrite getattr_insert. simpl. by destruct (_ !! lang).
Qed.

(** X18. On an instance whose [_comment] is a dictionary without the
    language asked for, [comment] returns the text of the last document
    that has an element in that language (of the first such element of
    that document, blanks stripped): a later document overrides an earlier
    one. The text is left in the dictionary. The elements read have only
    text nodes for children. *)
Theorem comment_last_document_wins (h : Host.t) (self : BaseMime.obj)
    (d : gmap string string) (lang n t : string) (paths : list string)
    (pre post : list Host.document) (doc : Host.document) :
  self !! "_comment" = Some (VDict d) →
  d !! lang = None →
  self !! "_BaseMime__name" = Some (VStr n) →
  MimeType.getMimeFiles h (VStr n) = Ok paths →
  Forall2 (λ p doc, Host.files h !! p = Some (Host.Xml doc))
          paths (pre ++ doc :: post) →
  Forall (Comments.readable lang) (pre ++ [doc]) →
  Comments.of_doc lang doc = Some t →
  Forall (λ doc, Comments.of_doc lang doc = None) post →
  ∃ d', MimeType.comment h lang self
        = (<["_comment" := VDict d']> self, Ok (VStr t))
        ∧ d' !! lang = Some t.
Proof.
  intros Hc Hl Hn Hp Hd Ht Hdoc Hpost.
  assert (Forall (Comments.readable lang) (pre ++ doc :: post)) as Hall.
  { apply Forall_app in Ht as [Hpre Hdoc'].
    apply Forall_app. split; [done|]. apply Forall_cons. split.
    - by apply Forall_cons in Hdoc' as [? _].
    - eapply Forall_impl; [exact Hpost|]. apply none_readable. }
  rewrite (comment_on_dictionary _ _ _ _ _ _ _ Hc Hl Hn Hp Hd Hall).
  destruct paths as [|p paths].
  { apply Forall2_nil_inv_l in Hd. by destruct pre. }
  pose proof (fold_dict_last lang pre doc post t d Hdoc Hpost) as Hlast.
  eexists. simpl in *. rewrite Hlast. done.
Qed.

Lemma comment_last_document_wins_witness :
  Comments.of_doc "de" Spec.old_doc = Some "Alt"
  ∧ ∃ d', MimeType.comment Spec.three_hosts "de" (Spec.prepared "text/plain")
          = (<["_comment" := VDict d']> (Spec.prepared "text/plain"),
             Ok (VStr "Neu"))
          ∧ d' !! "de" = Some "Neu".
Proof.
  split; [reflexivity|].
  apply (comment_last_document_wins Spec.three_hosts
           (Spec.prepared "text/plain") ∅ "de" "text/plain" "Neu"
           ["/a/mime/text/plain.xml"; "/b/mime/text/plain.xml";
            "/c/mime/text/plain.xml"]
           [Spec.old_doc] [Spec.english_doc] Spec.new_doc).
  - reflexivity.
  - reflexivity.
  - reflexivity.
  - reflexivity.
  - repeat constructor.
  - repeat constructor; intros c [= <-]; repeat constructor; eauto.
  - reflexivity.
  - repeat constructor.
Defined.

(** X19. On an instance whose [_comment] is a dictionary without the
    language asked for, [comment] returns [None] only when the type has no
    document at all; when it has documents and none holds an element in
    that language, [comment] raises [KeyError]. *)
Theorem comment_without_language (h : Host.t) (self : BaseMime.obj)
    (d : gmap string string) (lang n : string)
    (paths : list string) (docs : list Host.document) :
  self !! "_comment" = Some (VDict d) →
  d !! lang = None →
  self !! "_BaseMime__name" = Some (VStr n) →
  MimeType.getMimeFiles h (VStr n) = Ok paths →
  Forall2 (λ p doc, Host.files h !! p = Some (Host.Xml doc)) paths docs →
  Forall (λ doc, Comments.of_doc lang doc = None) docs →
  (paths = [] → MimeType.comment h lang self = (self, Ok VNone))
  ∧ (paths ≠ [] → MimeType.comment h lang self = (self, Raise KeyError)).
Proof.
  intros Hc Hl Hn Hp Hd Hnone.
  assert (Forall (Comments.readable lang) docs) as Hr.
  { eapply Forall_impl; [exact Hnone|]. apply none_readable. }
  rewrite (comment_on_dictionary _ _ _ _ _ _ _ Hc Hl Hn Hp Hd Hr).
  split; [by intros ->|]. intros Hne.
  destruct paths as [|p paths]; [done|]. simpl.
  rewrite fold_dict_none by done. rewrite Hl.
  by rewrite insert_id.
Qed.

Lemma comment_without_language_witness :
  MimeType.comment Spec.plain_host "fr" (Spec.prepared "text/plain")
  = (Spec.prepared "text/plain", Raise KeyError).
Proof.
  apply (comment_without_language Spec.plain_host (Spec.prepared "text/plain")
           ∅ "fr" "text/plain" ["/usr/share/mime/text/plain.xml"]
           [Spec.plain_doc]).
  - reflexivity.
  - reflexivity.
  - reflexivity.
  - reflexivity.
  - repeat constructor.
  - repeat constructor.
  - discriminate.
Defined.

(** X20. On an instance whose [_comment] is a dictionary that holds the
    language asked for, [comment] returns the entry: it reads nothing from
    the host and leaves the instance as it is. *)
Theorem comment_answers_from_the_dictionary (h : Host.t) (self : BaseMime.obj)
    (d : gmap string string) (lang t : string) :
  self !! "_comment" = Some (VDict d) →
  d !! lang = Some t →
  MimeType.comment h lang self = (self, Ok (VStr t)).
Proof.
  intros Hc Hl.
  unfold MimeType.comment, MimeType.load, MimeType.call, MimeType.lift.
  unfold mbind, MimeType.M_bind.
  rewrite (getattr_instance _ _ _ Hc). simpl.
  rewrite bool_decide_eq_true_2 by (rewrite Hl; eauto). simpl.
  rewrite (getattr_instance _ _ _ Hc). simpl. by rewrite Hl.
Qed.

Lemma comment_answers_from_the_dictionary_witness :
  MimeType.comment Spec.plain_host "en"
    (<["_comment" := VDict {[ "en" := "cached" ]}]> (Spec.prepared "text/plain"))
  = (<["_comment" := VDict {[ "en" := "cached" ]}]> (Spec.prepared "text/plain"),
     Ok (VStr "cached")).
Proof.
  apply (comment_answers_from_the_dictionary Spec.plain_host _
           {[ "en" := "cached" ]} "en" "cached"); reflexivity.
Defined.

(** ** What [match] and [fromName] can answer *)

Lemma max_by_key_elem first rest :
  GlobsFile.max_by_key first rest ∈ first :: rest.
Proof.
  destruct (max_by_key_first_greatest rest first) as (pre & post & Heq & _).
  assert (GlobsFile.max_by_key first rest
          ∈ pre ++ GlobsFile.max_by_key first rest :: post) as Hin.
  { apply elem_of_app. right. left. }
  by rewrite <- Heq in Hin.
Qed.

(** X21. [fromName] invents no type: the name of the instance it returns
    is the type of one of the rules of the index. *)
Theorem fromName_type_is_loaded (globs : GlobsFile.t) (name : string)
    (o : BaseMime.obj) :
  MimeType.fromName globs name = Ok (Some o) →
  ∃ r, r ∈ GlobsFile.matches globs
       ∧ GlobsFile.mime r ≠ EmptyString
       ∧ BaseMime.name o = Ok (VStr (GlobsFile.mime r)).
Proof.
  unfold MimeType.fromName.
  destruct (GlobsFile.literals globs !! name) as [i|] eqn:Hl.
  - unfold GlobsFile.match_. rewrite Hl.
    destruct (GlobsFile.matches globs !! i) as [r|] eqn:Hi; [|done]. simpl.
    destruct (GlobsFile.mime r) as [|c m] eqn:Hm; [done|]. simpl.
    intros [= <-]. exists r. rewrite Hm, name_init.
    split; [by eapply list_elem_of_lookup_2|done].
  - rewrite (match_scan_path _ _ Hl).
    destruct (Spec.all_compile _); [|done].
    destruct (Spec.kept name (GlobsFile.matches globs))
      as [|first rest] eqn:Hs; [done|].
    pose proof (max_by_key_elem first rest) as Hin. rewrite <- Hs in Hin.
    apply elem_of_kept in Hin as (r & Hr & _ & Hbest). rewrite Hbest.
    unfold Spec.entry. simpl.
    destruct (GlobsFile.mime r) as [|c m] eqn:Hm; [done|]. simpl.
    intros [= <-]. exists r. by rewrite Hm, name_init.
Qed.

Lemma fromName_type_is_loaded_witness :
  ∃ r, r ∈ GlobsFile.matches (Spec.loaded Spec.lower_jpg)
       ∧ GlobsFile.mime r ≠ EmptyString
       ∧ BaseMime.name (BaseMime.__init__ (VStr "image/jpeg"))
         = Ok (VStr (GlobsFile.mime r)).
Proof.
  apply (fromName_type_is_loaded (Spec.loaded Spec.lower_jpg) "photo.JPG").
  reflexivity.
Defined.

(** ** The line feed of a line *)

Lemma startswith_app c l t :
  l ≠ EmptyString → Str.startswith c (l +:+ t) = Str.startswith c l.
Proof. by destruct l. Qed.

Lemma chomp_without_nl l : Str.endswith "010" l = false → Spec.chomp l = l.
Proof. unfold Spec.chomp. by intros ->. Qed.

(** X22. The line feed that ends a line is optional: a line of a glob
    file, of the alias file or of the icon file that has none is read as
    the same line with its line feed. *)
Theorem line_feed_is_optional (line : string) :
  Str.endswith "010" line = false →
  (∀ self, GlobsFile.parse_line self (line +:+ Spec.nl)
           = GlobsFile.parse_line self line)
  ∧ (∀ aliases, AliasesFile.parse_line aliases (line +:+ Spec.nl)
                = AliasesFile.parse_line aliases line)
  ∧ (∀ icons, IconsFile.parse_line icons (line +:+ Spec.nl)
              = IconsFile.parse_line icons line).
Proof.
  intros Hl. repeat split.
  - intros self. unfold GlobsFile.parse_line.
    change (if Str.endswith "010" ?l then Str.drop_last ?l else ?l)
      with (Spec.chomp l).
    rewrite chomp_app_nl, (chomp_without_nl _ Hl).
    destruct line as [|a line]; [done|]. by rewrite startswith_app.
  - intros aliases.
    change (Table.line " " aliases (line +:+ Spec.nl) = Table.line " " aliases line).
    unfold Table.line. by rewrite chomp_app_nl, (chomp_without_nl _ Hl).
  - intros icons.
    change (Table.line ":" icons (line +:+ Spec.nl) = Table.line ":" icons line).
    unfold Table.line. by rewrite chomp_app_nl, (chomp_without_nl _ Hl).
Qed.

Lemma line_feed_is_optional_witness :
  GlobsFile.parse_line GlobsFile.__init__ ("50:text/plain:*.txt" +:+ Spec.nl)
  = GlobsFile.parse_line GlobsFile.__init__ "50:text/plain:*.txt".
Proof.
  apply (line_feed_is_optional "50:text/plain:*.txt"). reflexivity.
Defined.
